(** * Decode-phase orchestration of the XTTS audio-token generator

    A shallow embedding of [vllm_mm_gpt.py] (classes [XttsGPT] and
    [GPT2Model]): phase classification, the per-request offset table of the
    logits-only pass, the assembly of hidden states, the path from the layer
    stack to the decode head, and weight loading.

    Conventions.  A Python list of integers is a [list Z].  A tensor is its
    shape together with its cells in row-major order; the cells of a float
    tensor are rows of an abstract type [row] (one vector of the hidden
    dimension), so that a float tensor of shape (d1, ..., dk, D) has
    [lead = [d1; ...; dk]] and [d1 * ... * dk] cells.  An embedding table
    is the number of its rows together with the row at each index, and a
    lookup outside the table fails.  Python exceptions are the
    constructors of [error]. *)

From Stdlib Require Import ZArith String Lia.
From stdpp Require Import base option list gmap sets strings.

Set Warnings "-notation-for-abbreviation,-clear-no-such-hyp".

(** ** Python values shared by the whole file *)

(** The exceptions the modelled code can raise: an index out of range (of
    a list, or of an embedding table), an attribute read on [None], an
    operation the tensor library refuses (whatever exception class it
    uses), and a failed [assert]. *)
Inductive error :=
| IndexError
| AttributeError
| RuntimeError
| AssertionError.

Definition result (A : Type) : Type := error + A.

Definition ok {A} (a : A) : result A := inr a.
Definition raise {A} (e : error) : result A := inl e.

Definition bind {A B} (m : result A) (k : A → result B) : result B :=
  match m with
  | inl e => inl e
  | inr a => k a
  end.

Declare Scope py_scope.
Delimit Scope py_scope with py.
Notation "x <~ m ;; k" := (bind m (fun x => k))
  (at level 100, m at next level, right associativity) : py_scope.

(** [l[i]] for a non-negative index: [IndexError] when out of range. *)
Definition getitem {A} (l : list A) (i : nat) : result A :=
  match l !! i with
  | Some a => ok a
  | None => raise IndexError
  end.

(** [l[-1]] *)
Definition getitem_last {A} (l : list A) : result A :=
  match last l with
  | Some a => ok a
  | None => raise IndexError
  end.

(** A slice bound as Python normalises it against a length [n]. *)
Definition slice_bound (n i : Z) : Z :=
  if (i <? 0)%Z then Z.max 0 (i + n) else Z.min i n.

(** [l[start:stop]]: never raises, clamps. *)
Definition py_slice {A} (l : list A) (start stop : Z) : list A :=
  let n := Z.of_nat (length l) in
  let lo := slice_bound n start in
  let hi := slice_bound n stop in
  take (Z.to_nat (hi - lo)) (drop (Z.to_nat lo) l).

(** [l[start:]] *)
Definition py_slice_from {A} (l : list A) (start : Z) : list A :=
  drop (Z.to_nat (slice_bound (Z.of_nat (length l)) start)) l.

(** [l[:-1]] *)
Definition py_drop_last {A} (l : list A) : list A :=
  take (length l - 1) l.

Definition sumZ (l : list Z) : Z := foldr Z.add 0%Z l.

(** ** Phase classification ([XttsGPT.forward], [check_is_logits_only_mode]) *)

Module Classifier.

Inductive Phase := PRIMING | INCREMENTAL | LOGITS_ONLY.

(** The two sentinel ids of [torch.tensor([1, 1024])]. *)
Definition PAD_FILLER_ID : Z := 1.
Definition START_AUDIO_TOKEN_ID : Z := 1024.

(** What [is_logits_only_mode] can be when it reaches the model: a Python
    [bool], a tensor (its elements, flattened), or any other object, of
    which only [bool(...)] is observed. *)
Inductive flag :=
| FlagBool (b : bool)
| FlagTensor (elems : list Z)
| FlagOther (truth : bool).

Definition nonzero (x : Z) : bool := negb (x =? 0)%Z.

Definition check_is_logits_only_mode (is_logits_only_mode : flag) : bool :=
  match is_logits_only_mode with
  | FlagBool b => b
  | FlagTensor elems =>
      if (length elems =? 1)%nat
      then match elems with
           | item :: _ => nonzero item
           | [] => false
           end
      else existsb nonzero elems
  | FlagOther truth => truth
  end.

Definition isin_sentinels (t : Z) : bool :=
  (t =? PAD_FILLER_ID)%Z || (t =? START_AUDIO_TOKEN_ID)%Z.

Definition is_first_iteration (input_ids : list Z) : bool :=
  (1 <? length input_ids)%nat && forallb isin_sentinels input_ids.

(** The three-way branch at the head of [GPT2Model.forward]. *)
Definition phase_of (is_first_iteration is_logits_only_mode : bool) : Phase :=
  if is_first_iteration && negb is_logits_only_mode then PRIMING
  else if is_logits_only_mode then LOGITS_ONLY
  else INCREMENTAL.

Definition classify (input_ids : list Z) (is_logits_only_mode : flag) : Phase :=
  phase_of (is_first_iteration input_ids)
           (check_is_logits_only_mode is_logits_only_mode).

(** The classifier in the words of the specification, for comparison. *)
Definition truthy_spec (f : flag) : bool :=
  match f with
  | FlagBool b => b
  | FlagTensor [x] => nonzero x
  | FlagTensor xs => existsb nonzero xs
  | FlagOther t => t
  end.

Definition in_sentinel_set (t : Z) : Prop :=
  t = PAD_FILLER_ID ∨ t = START_AUDIO_TOKEN_ID.

#[global] Instance in_sentinel_set_dec t : Decision (in_sentinel_set t).
Proof. unfold in_sentinel_set. apply _. Defined.

Definition classify_spec (token_ids : list Z) (f : flag) : Phase :=
  if truthy_spec f then LOGITS_ONLY
  else if decide (1 < length token_ids ∧ Forall in_sentinel_set token_ids)
       then PRIMING
       else INCREMENTAL.

End Classifier.

(** ** The per-request offset table ([GPT2Model.forward], logits-only pass) *)

Module Alignment.

(** One turn of [for i in range(1, len(starting_idx))]. *)
Definition offsets_step (starting_idx ending_ids : list Z)
    (acc : result (list Z * list Z)) (i : nat) : result (list Z * list Z) :=
  (tables <~ acc ;;
   let cumulative_starts := tables.1 in
   let cumulative_ends := tables.2 in
   prev_end <~ getitem cumulative_ends (i - 1) ;;
   start_i <~ getitem starting_idx i ;;
   end_i <~ getitem ending_ids i ;;
   ok (cumulative_starts ++ [(prev_end + start_i)%Z],
       cumulative_ends ++ [(prev_end + end_i)%Z]))%py.

Definition offset_table (starting_idx ending_ids : list Z)
    : result (list Z * list Z) :=
  (start_0 <~ getitem starting_idx 0 ;;
   end_0 <~ getitem ending_ids 0 ;;
   foldl (offsets_step starting_idx ending_ids)
         (ok ([start_0], [end_0]))
         (seq 1 (length starting_idx - 1)))%py.

(** [[end - start for start, end in zip(cumulative_starts, cumulative_ends)]] *)
Definition ids_for_unpacking (cumulative_starts cumulative_ends : list Z) : list Z :=
  zip_with (fun start stop => (stop - start)%Z) cumulative_starts cumulative_ends.

(** [[x[start:end] for start, end in zip(cumulative_starts, cumulative_ends)]] *)
Definition slices {A} (x : list A) (cumulative_starts cumulative_ends : list Z)
    : list (list A) :=
  zip_with (py_slice x) cumulative_starts cumulative_ends.

End Alignment.

(** ** The tensor operations the forward pass uses *)

Module Torch.

Record tensor (A : Type) := Tensor { lead : list nat; cells : list A }.
Arguments Tensor {A} lead cells.
Arguments lead {A} t.
Arguments cells {A} t.

(** [t.shape] of a float tensor whose rows have [D] entries. *)
Definition shape {A} (D : nat) (t : tensor A) : list nat := lead t ++ [D].

Definition prod_dims (dims : list nat) : nat := foldr Nat.mul 1 dims.

(** The cells fill the shape. *)
Definition well_shaped {A} (t : tensor A) : Prop :=
  length (cells t) = prod_dims (lead t).

(** A 2-D float tensor from its rows. *)
Definition matrix {A} (rows : list A) : tensor A := Tensor [length rows] rows.

(** An embedding table ([nn.Embedding], [VocabParallelEmbedding]): the
    number of its rows and the row at each index. *)
Record table (A : Type) := Table { num_embeddings : Z; weight :> Z → A }.
Arguments Table {A} num_embeddings weight.
Arguments num_embeddings {A} t.
Arguments weight {A} t _.

(** The indices the table holds. *)
Definition in_table {A} (t : table A) (i : Z) : Prop :=
  (0 ≤ i < num_embeddings t)%Z.

#[global] Instance in_table_dec {A} (t : table A) (i : Z) :
  Decision (in_table t i).
Proof. unfold in_table. apply _. Defined.

(** The row of one index; an index outside the table is refused. *)
Definition lookup_row {A} (t : table A) (i : Z) : result A :=
  if (0 <=? i)%Z && (i <? num_embeddings t)%Z then ok (t i)
  else raise IndexError.

Fixpoint lookup_rows {A} (t : table A) (indices : list Z) : result (list A) :=
  match indices with
  | [] => ok []
  | i :: indices' =>
      (r <~ lookup_row t i ;;
       rs <~ lookup_rows t indices' ;;
       ok (r :: rs))%py
  end.

(** An embedding lookup: the result has the indices' shape, one row each. *)
Definition embedding {A} (t : table A) (indices : tensor Z) : result (tensor A) :=
  (rows <~ lookup_rows t (cells indices) ;;
   ok (Tensor (lead indices) rows))%py.

(** [t.squeeze(0)] *)
Definition squeeze0 {A} (t : tensor A) : tensor A :=
  match lead t with
  | 1 :: rest => Tensor rest (cells t)
  | _ => t
  end.

(** [t.view(-1, D)] on a float tensor: the rows, as a matrix. *)
Definition view2d {A} (t : tensor A) : tensor A := matrix (cells t).

(** Shapes (1, ..., 1, n, D) and (D,): every dimension before the row
    dimension is 1.  The forward pass adds only such tensors (embeddings
    of 1-D and (1, n) index tensors), and [add] is defined on them alone. *)
Definition unit_led (dims : list nat) : bool :=
  forallb (Nat.eqb 1) (removelast dims).

(** Broadcasting along the row dimension: equal row counts add row by
    row, a single row is added to every row of the other operand, and any
    other pair of row counts is refused. *)
Definition broadcast_cells {A} (f : A → A → A) (xs ys : list A) : result (list A) :=
  if (length xs =? length ys)%nat then ok (zip_with f xs ys)
  else match xs, ys with
       | [x], _ => ok (map (f x) ys)
       | _, [y] => ok (map (fun x => f x y) xs)
       | _, _ => raise RuntimeError
       end.

(** [a + b] for tensors of the shapes above; the result has the rank of
    the operand with more dimensions. *)
Definition add {A} (f : A → A → A) (a b : tensor A) : result (tensor A) :=
  if unit_led (lead a) && unit_led (lead b) then
    (summed <~ broadcast_cells f (cells a) (cells b) ;;
     let rank := Nat.max (length (lead a)) (length (lead b)) in
     ok (Tensor (match rank with
                 | 0 => []
                 | S k => replicate k 1 ++ [length summed]
                 end) summed))%py
  else raise RuntimeError.

(** The pieces of [cells], piece [i] taking [sizes[i] * stride] cells. *)
Fixpoint split_cells {A} (rest : list nat) (sizes : list Z) (cs : list A)
    : list (tensor A) :=
  match sizes with
  | [] => []
  | s :: sizes' =>
      let n := (Z.to_nat s * prod_dims rest)%nat in
      Tensor (Z.to_nat s :: rest) (take n cs) :: split_cells rest sizes' (drop n cs)
  end.

(** [t.split(sizes, dim=0)]: the sizes must be non-negative and sum to the
    first dimension.  (A tensor of shape (D,) has no row dimension to
    split; the forward pass splits no such tensor.) *)
Definition split0 {A} (t : tensor A) (sizes : list Z) : result (list (tensor A)) :=
  match lead t with
  | [] => raise RuntimeError
  | d0 :: rest =>
      if forallb (Z.leb 0) sizes && (sumZ sizes =? Z.of_nat d0)%Z
      then ok (split_cells rest sizes (cells t))
      else raise RuntimeError
  end.

Definition same_trailing_dims {A} (rest : list nat) (t : tensor A) : bool :=
  match lead t with
  | [] => false
  | _ :: rest' => bool_decide (rest' = rest)
  end.

Definition dim0 {A} (t : tensor A) : nat :=
  match lead t with
  | [] => 0
  | d0 :: _ => d0
  end.

(** [torch.cat(ts, dim=0)]: a non-empty list of tensors of one rank that
    agree on every dimension but the first; anything else is refused. *)
Definition cat0 {A} (ts : list (tensor A)) : result (tensor A) :=
  match ts with
  | [] => raise RuntimeError
  | t :: _ =>
      match lead t with
      | [] => raise RuntimeError
      | _ :: rest =>
          if forallb (same_trailing_dims rest) ts
          then ok (Tensor (foldr Nat.add 0 (map dim0 ts) :: rest)
                          (concat (map cells ts)))
          else raise RuntimeError
      end
  end.

End Torch.

(** ** [LearnedPositionEmbeddings] and [GPT2Model.forward] *)

Module GPT2Model.
Import Torch.

(** [attn_metadata], as far as the model reads it. *)
Record AttentionMetadata := {
  seq_lens : list Z;
  num_prefill_tokens : Z;
}.

(** [get_pp_group()], as far as the model reads it. *)
Record PPGroup := {
  is_first_rank : bool;
  is_last_rank : bool;
}.

(** The conditioning input: one tensor, or a Python list of tensors
    ([isinstance(input_embeds, list)]). *)
Inductive Conditioning (row : Type) :=
| Single (t : tensor row)
| PerRequest (ts : list (tensor row)).
Arguments Single {row} t.
Arguments PerRequest {row} ts.

(** What the first branch of [forward] leaves in [input_ids],
    [position_ids] and [ids_for_unpacking] (the last is bound only on the
    list branch of the logits-only pass, and read only there). *)
Record Selected := {
  sel_input_ids : tensor Z;
  sel_position_ids : list Z;
  sel_ids_for_unpacking : list Z;
}.

(** [hidden_states] is a tensor, or after [split] a list of tensors. *)
Inductive Hidden (row : Type) :=
| HTensor (t : tensor row)
| HList (ts : list (tensor row)).
Arguments HTensor {row} t.
Arguments HList {row} ts.

(** The calls made on the way from the assembled hidden states to the
    logits: the owned blocks, the two layer norms, the optional collector
    and the projection.  A run records them in the order they are made. *)
Inductive call (row : Type) :=
| CallBlock (i : nat)
| CallLnF (input : list row)
| CallFinalNorm (input : list row)
| CallHiddenStateCollector (hidden_states : list row)
| CallLogitsProcessor (hidden_states : list row).
Arguments CallBlock {row} i.
Arguments CallLnF {row} input.
Arguments CallFinalNorm {row} input.
Arguments CallHiddenStateCollector {row} hidden_states.
Arguments CallLogitsProcessor {row} hidden_states.

Definition is_normalization {row} (c : call row) : bool :=
  match c with
  | CallLnF _ | CallFinalNorm _ => true
  | _ => false
  end.

Definition normalizations {row} (trace : list (call row)) : nat :=
  length (filter (fun c => is_normalization c = true) trace).

(** What [forward] returns. *)
Inductive Output (row : Type) :=
| IntermediateTensors (hidden_states : list row)
| HiddenStates (hidden_states : list row).
Arguments IntermediateTensors {row} hidden_states.
Arguments HiddenStates {row} hidden_states.

Section Model.

Context {row : Type}.
(** [self.embed_dim] *)
Variable embed_dim : nat.
(** [self.wte] and [self.wpe.emb]: the token and position embedding
    tables. *)
Variable wte : table row.
Variable emb : table row.
(** [+] on two rows. *)
Variable radd : row → row → row.
(** [self.h[start_layer:end_layer]], each block with its key/value cache
    and the attention metadata already supplied. *)
Variable h : list (list row → list row).
(** [self.ln_f] *)
Variable ln_f : list row → list row.

(** [LearnedPositionEmbeddings.forward(x)] with [relative=False], as
    [GPT2Model] builds it; [sl] is [x.shape[1]], which is 1 for the
    [audio_inputs_embeds.reshape(-1, 1)] the model passes. *)
Definition wpe_forward (sl : nat) : result (tensor row) :=
  embedding emb (Tensor [sl] (map Z.of_nat (seq 0 sl))).

(** [LearnedPositionEmbeddings.get_fixed_embedding(ind, dev)] on a 1-D
    index tensor: several indices are looked up one by one and stacked, a
    single one gives a tensor of shape (1, 1, D), and [torch.tensor([ind])]
    refuses an empty [ind]. *)
Definition get_fixed_embedding (ind : list Z) : result (tensor row) :=
  (if (1 <? length ind)%nat then
     pos_embeddings <~ lookup_rows emb ind ;;
     ok (Tensor [length ind] pos_embeddings)
   else match ind with
        | [p] => embedding emb (Tensor [1; 1] [p])
        | _ => raise RuntimeError
        end)%py.

(** [input_embeds.shape[0]] (a shape is never empty) and
    [input_embeds.shape[1]] *)
Definition shape0 (t : tensor row) : nat := default 0 (head (shape embed_dim t)).
Definition shape1 (t : tensor row) : result nat := getitem (shape embed_dim t) 1.

(** The branch on the phase that rewrites [input_ids] and [position_ids]. *)
Definition select_tokens (input_ids position_ids : list Z)
    (attn_metadata : AttentionMetadata)
    (input_embeds : option (Conditioning row))
    (is_first_iteration is_logits_only_mode : bool) : result Selected :=
  (if is_first_iteration && negb is_logits_only_mode then
     last_id <~ getitem_last input_ids ;;
     ok {| sel_input_ids := Tensor [1; 1] [last_id];
           sel_position_ids := position_ids;
           sel_ids_for_unpacking := [] |}
   else if is_logits_only_mode then
     match input_embeds with
     | Some (PerRequest embeds) =>
         let starting_idx :=
           map (fun input_embed => Z.of_nat (shape0 input_embed)) embeds in
         let ending_ids := seq_lens attn_metadata in
         tables <~ Alignment.offset_table starting_idx ending_ids ;;
         let cumulative_starts := tables.1 in
         let cumulative_ends := tables.2 in
         let ids := concat (Alignment.slices input_ids cumulative_starts cumulative_ends) in
         ok {| sel_input_ids := Tensor [1; length ids] ids;
               sel_position_ids :=
                 concat (Alignment.slices position_ids cumulative_starts cumulative_ends);
               sel_ids_for_unpacking :=
                 Alignment.ids_for_unpacking cumulative_starts cumulative_ends |}
     | Some (Single embeds) =>
         offset <~ shape1 embeds ;;
         let ids := py_slice_from input_ids (Z.of_nat offset) in
         ok {| sel_input_ids := Tensor [1; length ids] ids;
               sel_position_ids := py_slice_from position_ids (Z.of_nat offset);
               sel_ids_for_unpacking := [] |}
     | None => raise AttributeError
     end
   else
     ok {| sel_input_ids := Tensor [length input_ids] input_ids;
           sel_position_ids := position_ids;
           sel_ids_for_unpacking := [] |})%py.

(** [audio_inputs_embeds + position_embeds] *)
Definition embed_tokens (is_first_iteration : bool) (sel : Selected)
    : result (tensor row) :=
  (looked_up <~ embedding wte (sel_input_ids sel) ;;
   let audio_inputs_embeds := squeeze0 looked_up in
   position_embeds <~
     (if negb is_first_iteration
      then get_fixed_embedding (sel_position_ids sel)
      else wpe_forward 1) ;;
   add radd audio_inputs_embeds position_embeds)%py.

Definition is_list (input_embeds : option (Conditioning row)) : bool :=
  match input_embeds with
  | Some (PerRequest _) => true
  | _ => false
  end.

(** The conditioning as a 2-D tensor ([view(-1, shape[-1])]), a single
    tensor losing its last row when it has [num_prefill_tokens] rows. *)
Definition flatten_conditioning (attn_metadata : AttentionMetadata)
    (input_embeds : option (Conditioning row)) : result (Conditioning row) :=
  match input_embeds with
  | None => raise AttributeError
  | Some (PerRequest embeds) => ok (PerRequest (map view2d embeds))
  | Some (Single embeds) =>
      let flat := view2d embeds in
      if (Z.of_nat (shape0 flat) =? num_prefill_tokens attn_metadata)%Z
      then ok (Single (matrix (py_drop_last (cells flat))))
      else ok (Single flat)
  end.

(** [[tensor for pair in zip(input_embeds, partners) for tensor in pair]] *)
Definition interleave (input_embeds partners : list (tensor row))
    : list (tensor row) :=
  concat (zip_with (fun e p => [e; p]) input_embeds partners).

(** The concatenation of the conditioning in front of the hidden states. *)
Definition prepend_conditioning (input_embeds : Conditioning row)
    (hidden_states : Hidden row) : result (tensor row) :=
  match input_embeds with
  | PerRequest embeds =>
      cat0 (interleave embeds
              match hidden_states with
              | HTensor t => replicate (length embeds) t
              | HList ts => ts
              end)
  | Single embeds =>
      match hidden_states with
      | HTensor t => cat0 [embeds; t]
      | HList _ => raise RuntimeError
      end
  end.

(** The first-rank part of [forward], up to [hidden_states.view(-1, D)]. *)
Definition assemble (input_ids position_ids : list Z)
    (attn_metadata : AttentionMetadata)
    (input_embeds : option (Conditioning row))
    (is_first_iteration is_logits_only_mode : bool) : result (list row) :=
  (sel <~ select_tokens input_ids position_ids attn_metadata input_embeds
            is_first_iteration is_logits_only_mode ;;
   summed <~ embed_tokens is_first_iteration sel ;;
   hidden_states <~
     (if is_list input_embeds && is_logits_only_mode
      then pieces <~ split0 summed (sel_ids_for_unpacking sel) ;; ok (HList pieces)
      else ok (HTensor summed)) ;;
   if is_first_iteration || is_logits_only_mode then
     flat <~ flatten_conditioning attn_metadata input_embeds ;;
     joined <~ prepend_conditioning flat hidden_states ;;
     ok (cells (view2d joined))
   else
     match hidden_states with
     | HTensor t => ok (cells (view2d t))
     | HList _ => raise RuntimeError
     end)%py.

(** The owned blocks, in order. *)
Definition run_layers (hidden_states : list row) : list row :=
  foldl (fun acc layer => layer acc) hidden_states h.

(** The hidden states a pipeline stage starts from: assembled on the
    first stage, received from the previous stage on the others. *)
Definition stage_input (pp : PPGroup) (input_ids position_ids : list Z)
    (attn_metadata : AttentionMetadata)
    (intermediate_tensors : option (list row))
    (input_embeds : option (Conditioning row))
    (is_first_iteration is_logits_only_mode : bool) : result (list row) :=
  if is_first_rank pp
  then assemble input_ids position_ids attn_metadata input_embeds
         is_first_iteration is_logits_only_mode
  else match intermediate_tensors with
       | Some hs => ok hs
       | None => raise AssertionError
       end.

(** [GPT2Model.forward], with the calls it makes after the assembly. *)
Definition forward (pp : PPGroup) (input_ids position_ids : list Z)
    (attn_metadata : AttentionMetadata)
    (intermediate_tensors : option (list row))
    (input_embeds : option (Conditioning row))
    (is_first_iteration is_logits_only_mode : bool)
    : result (Output row * list (call row)) :=
  (hidden_states <~
     stage_input pp input_ids position_ids attn_metadata intermediate_tensors
       input_embeds is_first_iteration is_logits_only_mode ;;
   let blocks := map CallBlock (seq 0 (length h)) in
   let hidden_states := run_layers hidden_states in
   if negb (is_last_rank pp)
   then ok (IntermediateTensors hidden_states, blocks)
   else ok (HiddenStates (ln_f hidden_states), blocks ++ [CallLnF hidden_states]))%py.

End Model.

End GPT2Model.

(** ** [XttsGPT]: the model around [GPT2Model], and its decode head *)

Module XttsGPT.
Import Torch GPT2Model.

Section Model.

Context {row logits : Type}.
Variable embed_dim : nat.
Variable wte : table row.
Variable emb : table row.
Variable radd : row → row → row.
Variable h : list (list row → list row).
Variable ln_f : list row → list row.
(** [self.final_norm] *)
Variable final_norm : list row → list row.
(** [self.logits_processor(self.mel_head, ., sampling_metadata)] *)
Variable logits_processor : list row → logits.

(** [XttsGPT.forward] *)
Definition forward (pp : PPGroup) (input_ids positions : list Z)
    (attn_metadata : AttentionMetadata)
    (intermediate_tensors : option (list row))
    (cond_latents : option (Conditioning row))
    (is_logits_only_mode : Classifier.flag)
    : result (Output row * list (call row)) :=
  let is_first_iteration := Classifier.is_first_iteration input_ids in
  let is_logits_only_mode :=
    Classifier.check_is_logits_only_mode is_logits_only_mode in
  GPT2Model.forward embed_dim wte emb radd h ln_f pp input_ids positions
    attn_metadata intermediate_tensors cond_latents
    is_first_iteration is_logits_only_mode.

(** [XttsGPT.compute_logits]; [has_collector] is
    [hasattr(sampling_params, 'hidden_state_collector')]. *)
Definition compute_logits (hidden_states : list row) (has_collector : bool)
    : logits * list (call row) :=
  let normalized := final_norm hidden_states in
  (logits_processor normalized,
   [CallFinalNorm hidden_states]
   ++ (if has_collector then [CallHiddenStateCollector normalized] else [])
   ++ [CallLogitsProcessor normalized]).

(** One decode step as the serving engine drives the model: [forward],
    and on the last pipeline stage [compute_logits] on what it returned.
    The result is the logits, if any, and every call made, in order. *)
Definition decode (pp : PPGroup) (input_ids positions : list Z)
    (attn_metadata : AttentionMetadata)
    (intermediate_tensors : option (list row))
    (cond_latents : option (Conditioning row))
    (is_logits_only_mode : Classifier.flag) (has_collector : bool)
    : result (option logits * list (call row)) :=
  (out <~ forward pp input_ids positions attn_metadata intermediate_tensors
            cond_latents is_logits_only_mode ;;
   match out.1 with
   | IntermediateTensors _ => ok (None, out.2)
   | HiddenStates hidden_states =>
       let head := compute_logits hidden_states has_collector in
       ok (Some head.1, out.2 ++ head.2)
   end)%py.

End Model.

End XttsGPT.

(** ** [XttsGPT.load_weights] *)

Module Weights.

(** [needle in s] *)
Fixpoint contains (needle s : string) : bool :=
  String.prefix needle s
  || match s with
     | EmptyString => false
     | String _ s' => contains needle s'
     end.

(** [s.endswith(suffix)] *)
Definition endswith (s suffix : string) : bool :=
  (String.length suffix <=? String.length s)%nat
  && String.eqb
       (String.substring (String.length s - String.length suffix)
                         (String.length suffix) s)
       suffix.

(** The projection weights that are transposed before they are bound. *)
Definition needs_transpose (name : string) : bool :=
  (contains "c_attn" name || contains "c_proj" name || contains "c_fc" name)
  && endswith name ".weight".

(** How the routine ends: normally, or with the assertion's message
    [Missing weights: {...}]. *)
Inductive outcome :=
| Loaded
| MissingWeights (names : gset string).

Section Loader.

(** The weight tensors. *)
Context {W : Type}.
(** [loaded_weight.t()] *)
Variable transpose : W → W.
(** [getattr(param, "weight_loader", default_weight_loader)] of the
    parameter of that name: from the parameter's data and the loaded
    weight, the parameter's new data. *)
Variable weight_loader : string → W → W → W.

(** The loop's state: the parameters' data ([params_dict], whose keys
    never change) and [loaded_names]. *)
Definition loader_state : Type := gmap string W * gset string.

(** One turn of [for name, loaded_weight in weights]. *)
Definition load_one (st : loader_state) (item : string * W) : loader_state :=
  let name := item.1 in
  let loaded_weight := item.2 in
  match st.1 !! name with
  | None => st
  | Some param =>
      let loaded_weight :=
        if needs_transpose name then transpose loaded_weight else loaded_weight in
      (<[name := weight_loader name param loaded_weight]> st.1,
       st.2 ∪ {[name]})
  end.

(** The final [assert]. *)
Definition check_loaded (params_dict : gmap string W) (loaded_names : gset string)
    : outcome :=
  let missing := dom params_dict ∖ loaded_names in
  if decide (missing = ∅) then Loaded else MissingWeights missing.

(** [load_weights]: the parameters as the loop leaves them and how the
    routine ends. *)
Definition load_weights (params_dict : gmap string W) (weights : list (string * W))
    : gmap string W * outcome :=
  let st := foldl load_one (params_dict, ∅) weights in
  (st.1, check_loaded params_dict st.2).

End Loader.

End Weights.

(** ** The request side: profiling data, input mapper, input processor *)

Module Inputs.
Import Torch GPT2Model.

(** The exceptions of the functions below: those of [error], and a missing
    dictionary key, an operation on a value of the wrong type, and the
    mapper's own rejection. *)
Inductive exn :=
| Raised (e : error)
| KeyError
| TypeError
| NotImplementedError.

(** [l * n] on a Python list (or [array]): empty when [n <= 0]. *)
Definition py_repeat {A} (l : list A) (n : Z) : list A :=
  concat (replicate (Z.to_nat n) l).

(** [get_xtts_max_audio_tokens] *)
Definition get_xtts_max_audio_tokens : Z := 32.

(** [dummy_seq_data_for_xtts]: the token ids of the profiling sequence. *)
Definition dummy_seq_data_for_xtts (seq_len audio_count : Z) : list Z :=
  let audio_placeholder := py_repeat [1%Z] 32 in
  let audio_token_ids := py_repeat (audio_placeholder ++ [1%Z]) audio_count in
  let other_token_ids :=
    py_repeat [1%Z] (seq_len - Z.of_nat (length audio_token_ids)) in
  audio_token_ids ++ other_token_ids.

(** One turn of the loop of [_calculate_start_token_indices], on the pair
    ([indices], [current_idx]). *)
Definition start_index_step (embed_dim : nat) {row} (st : list Z * Z)
    (cond_latent : tensor row) : list Z * Z :=
  let current_idx := (st.2 + Z.of_nat (shape0 embed_dim cond_latent))%Z in
  (st.1 ++ [current_idx], (current_idx + 1)%Z).

(** [XttsGPT._calculate_start_token_indices] *)
Definition calculate_start_token_indices (embed_dim : nat) {row}
    (cond_latents : list (tensor row)) : list Z :=
  (foldl (start_index_step embed_dim) ([], 0%Z) cond_latents).1.

(** The positions [LearnedPositionEmbeddings.forward] looks up for an
    input with [sl = x.shape[1]]; [draw] is what
    [random.randint(sl, self.seq_len)] returned, read only when the
    embedding is relative. *)
Definition wpe_forward_positions (relative : bool) (sl : nat) (draw : Z)
    : list Z :=
  if relative
  then let start := (draw - Z.of_nat sl)%Z in
       map (fun i => (start + Z.of_nat i)%Z) (seq 0 sl)
  else map Z.of_nat (seq 0 sl).

Section Values.

Context {row : Type}.
(** [ctx.model_config.hf_config.hidden_size] *)
Variable hidden_size : nat.
(** A row of [torch.zeros]. *)
Variable zero_row : row.
(** [ctx.model_config.hf_config.start_audio_token] *)
Variable start_audio_token : Z.

(** An item of a Python list: a tensor, or an object of another type. *)
Inductive item :=
| ITensor (t : tensor row)
| IOther.

(** The Python values that reach the mapper and the processor as
    [embeds]: a tensor, a list, or an object that is neither, has no
    [shape] and cannot be iterated. *)
Inductive value :=
| VTensor (t : tensor row)
| VList (items : list item)
| VOther.

(** The dictionary under [multi_modal_data['audio']]: its two keys, each
    present or not. *)
Record AudioData := {
  embeds : option value;
  is_logits_only_mode : option bool;
}.

(** [dummy_conditioning_for_xtts]: under the key ["audio"], [audio_count]
    tensors of zeros with [seq_len] rows each; [torch.zeros] refuses a
    negative size. *)
Definition dummy_conditioning_for_xtts (seq_len audio_count : Z)
    : exn + gmap string AudioData :=
  if (0 <? audio_count)%Z && (seq_len <? 0)%Z then inl (Raised RuntimeError)
  else inr {[ "audio" :=
                {| embeds :=
                     Some (VList (replicate (Z.to_nat audio_count)
                                    (ITensor (matrix (replicate (Z.to_nat seq_len)
                                                        zero_row)))));
                   is_logits_only_mode := Some false |} ]}.

(** [dummy_data_for_xtts] *)
Definition dummy_data_for_xtts (seq_len : Z) (mm_counts : gmap string Z)
    : exn + (list Z * gmap string AudioData) :=
  match mm_counts !! "audio" with
  | None => inl KeyError
  | Some audio_count =>
      let seq_data := dummy_seq_data_for_xtts seq_len audio_count in
      match dummy_conditioning_for_xtts seq_len audio_count with
      | inl e => inl e
      | inr cond_data => inr (seq_data, cond_data)
      end
  end.

(** The [data] argument of the mapper: a dictionary or something else. *)
Inductive MapperData :=
| DataDict (d : AudioData)
| DataOther.

(** What the mapper returns: the two entries of [MultiModalInputs]. *)
Record MultiModalInputs := {
  cond_latents : option value;
  mm_is_logits_only_mode : bool;
}.

(** [isinstance(audio_input, Tensor)] *)
Definition is_tensor (audio_input : item) : bool :=
  match audio_input with
  | ITensor _ => true
  | IOther => false
  end.

(** [for audio_input in embeds]: the check of every item.  A tensor is
    iterated into tensors; [None] and other objects cannot be iterated. *)
Definition check_items (embeds : option value) : exn + unit :=
  match embeds with
  | Some (VTensor _) => inr tt
  | Some (VList items) =>
      if forallb is_tensor items then inr tt else inl NotImplementedError
  | Some VOther | None => inl TypeError
  end.

(** [input_mapper_for_xtts] *)
Definition input_mapper_for_xtts (data : MapperData) : exn + MultiModalInputs :=
  match data with
  | DataOther => inl (Raised AssertionError)
  | DataDict d =>
      match check_items (embeds d) with
      | inl e => inl e
      | inr _ =>
          inr {| cond_latents := embeds d;
                 mm_is_logits_only_mode :=
                   default false (is_logits_only_mode d) |}
      end
  end.

(** The [inputs] of the processor, as far as it reads them. *)
Record DecoderOnlyInputs := {
  multi_modal_data : option (gmap string AudioData);
  prompt_token_ids : option (list Z);
}.

(** What the processor returns ([token_inputs], with no prompt text). *)
Record TokenInputs := {
  out_prompt_token_ids : list Z;
  out_multi_modal_data : gmap string AudioData;
}.

(** [input_processor_for_xtts2_gpt] *)
Definition input_processor_for_xtts2_gpt (inputs : DecoderOnlyInputs)
    : exn + TokenInputs :=
  match multi_modal_data inputs with
  | None => inl TypeError
  | Some mm =>
      match mm !! "audio" with
      | None => inl KeyError
      | Some audio_dict =>
          let is_last_decoding_pass :=
            default false (is_logits_only_mode audio_dict) in
          match embeds audio_dict with
          | Some (VTensor audio) =>
              let fillers :=
                py_repeat [1%Z] (Z.of_nat (shape0 hidden_size audio)) in
              if negb is_last_decoding_pass then
                inr {| out_prompt_token_ids := fillers ++ [start_audio_token];
                       out_multi_modal_data := mm |}
              else
                match prompt_token_ids inputs with
                | Some ids =>
                    inr {| out_prompt_token_ids := fillers ++ ids;
                           out_multi_modal_data := mm |}
                | None => inl TypeError
                end
          | _ => inl (Raised AttributeError)
          end
      end
  end.

End Values.

End Inputs.

(** ** Vocabulary for the request side *)

Module Layout.

(** Where the start-token rows stand in a sequence that begins at row
    [base] and holds, for each conditioning tensor in turn, its rows and
    then one start-token row. *)
Fixpoint start_rows_from {A} (base : Z) (conds : list (list A)) : list Z :=
  match conds with
  | [] => []
  | c :: conds' =>
      (base + Z.of_nat (length c))%Z
      :: start_rows_from (base + Z.of_nat (length c) + 1)%Z conds'
  end.

End Layout.

(** * The vocabulary of the properties *)

Module Spec.
Import Torch GPT2Model Weights.

(** The first [n] entries of the two tables, in closed form: request [i]
    starts at the sum of the earlier sequence lengths plus its own
    conditioning length and ends at the sum of the sequence lengths up to
    and including its own. *)
Definition table_upto (cs ss starts ends : list Z) (n : nat) : Prop :=
  length starts = n ∧ length ends = n
  ∧ (∀ i c, i < n → cs !! i = Some c →
       starts !! i = Some (sumZ (take i ss) + c)%Z)
  ∧ (∀ i, i < n → ends !! i = Some (sumZ (take (S i) ss))).

Section Packed.

Context {row : Type}.
Variable wte : table row.
Variable emb : table row.
Variable radd : row → row → row.

(** The row of the one token the priming pass keeps: its token
    embedding plus the embedding of position 0. *)
Definition start_row (last_id : Z) : row := radd (wte last_id) (emb 0%Z).

(** One request of a packed batch: its conditioning rows, the filler ids
    and positions that stand for them in the packed tensors, and the audio
    tokens with their positions. *)
Record Request := {
  cond : list row;
  prefix_ids : list Z;
  audio_ids : list Z;
  prefix_positions : list Z;
  audio_positions : list Z;
}.

Definition well_packed (r : Request) : Prop :=
  length (prefix_ids r) = length (cond r)
  ∧ length (prefix_positions r) = length (cond r)
  ∧ length (audio_positions r) = length (audio_ids r).

(** The request's audio tokens are inside the token table, and the
    positions looked up for them inside the position table: position 0
    alone when the packed tensor was all sentinels ([is_first_iteration]),
    the request's audio positions otherwise. *)
Definition in_tables (is_first_iteration : bool) (r : Request) : Prop :=
  Forall (in_table wte) (audio_ids r)
  ∧ if is_first_iteration then in_table emb 0
    else Forall (in_table emb) (audio_positions r).

Definition packed_ids (reqs : list Request) : list Z :=
  concat (map (fun r => prefix_ids r ++ audio_ids r) reqs).

Definition packed_positions (reqs : list Request) : list Z :=
  concat (map (fun r => prefix_positions r ++ audio_positions r) reqs).

Definition seq_lens_of (reqs : list Request) : list Z :=
  map (fun r => Z.of_nat (length (prefix_ids r ++ audio_ids r))) reqs.

Definition cond_lens_of (reqs : list Request) : list Z :=
  map (fun r => Z.of_nat (length (cond r))) reqs.

Definition bundle (reqs : list Request) : list (tensor row) :=
  map (fun r => matrix (cond r)) reqs.

(** The rows of a request's audio tokens: token embedding plus position
    embedding, the position being 0 throughout when the packed tensor was
    all sentinels ([is_first_iteration]). *)
Definition audio_rows (is_first_iteration : bool) (r : Request) : list row :=
  zip_with (fun t p => radd (wte t) (emb (if is_first_iteration then 0%Z else p)))
           (audio_ids r) (audio_positions r).

(** The attention metadata of a packed batch, possibly with entries of
    [seq_lens] beyond the bundle. *)
Definition metadata_of (reqs : list Request) (extra_lens : list Z) (npt : Z)
    : AttentionMetadata :=
  {| seq_lens := seq_lens_of reqs ++ extra_lens; num_prefill_tokens := npt |}.

End Packed.

Section Supplied.

Context {W : Type}.
Variable transpose : W → W.

(** The names the weight source supplies. *)
Definition supplied (weights : list (string * W)) : gset string :=
  list_to_set weights.*1.

(** The weight as it is handed to the parameter's loader. *)
Definition as_bound (name : string) (loaded_weight : W) : W :=
  if needs_transpose name then transpose loaded_weight else loaded_weight.

End Supplied.

End Spec.

(** * A small model, on which the properties are tried *)

Module Example.
Import Torch GPT2Model Weights Spec.

(** Rows of two entries: a token [t] embeds as [[t; 0]], a position [p]
    as [[0; p]], so the row of token [t] at position [p] is [[t; p]].  The
    token table has 1026 rows and the position table 608. *)
Definition ex_row : Type := list Z.
Definition ex_wte : table ex_row := Table 1026 (fun t => [t; 0%Z]).
Definition ex_emb : table ex_row := Table 608 (fun p => [0%Z; p]).
Definition ex_radd (a b : ex_row) : ex_row := zip_with Z.add a b.
(** A conditioning row. *)
Definition ex_c : ex_row := [(-1)%Z; (-1)%Z].

Definition ex_assemble :=
  assemble (row := ex_row) 2 ex_wte ex_emb ex_radd.

(** The specification's example: conditioning lengths [3, 2], sequence
    lengths [5, 4]. *)
Definition ex_requests : list (@Request ex_row) :=
  [ {| cond := [ex_c; ex_c; ex_c];
       prefix_ids := [1; 1; 1]%Z; audio_ids := [7; 8]%Z;
       prefix_positions := [0; 1; 2]%Z; audio_positions := [3; 4]%Z |};
    {| cond := [ex_c; ex_c];
       prefix_ids := [1; 1]%Z; audio_ids := [5; 6]%Z;
       prefix_positions := [0; 1]%Z; audio_positions := [2; 3]%Z |} ].

(** A one-stage pipeline with one block, which doubles every entry; the
    two normalization layers stand out as adding 1 and adding 10. *)
Definition ex_block (hs : list ex_row) : list ex_row := map (map (Z.mul 2)) hs.
Definition ex_ln_f (hs : list ex_row) : list ex_row := map (map (Z.add 1)) hs.
Definition ex_final_norm (hs : list ex_row) : list ex_row := map (map (Z.add 10)) hs.
Definition ex_single_stage : PPGroup :=
  {| is_first_rank := true; is_last_rank := true |}.

Definition ex_decode :=
  XttsGPT.decode (row := ex_row) (logits := list ex_row)
    2 ex_wte ex_emb ex_radd [ex_block] ex_ln_f ex_final_norm (fun hs => hs)
    ex_single_stage.

(** A model with three declared parameters. *)
Definition example_params : gmap string Z :=
  {[ "gpt.wte.weight" := 0%Z;
     "gpt.h.0.attn.c_attn.weight" := 0%Z;
     "final_norm.bias" := 0%Z ]}.

(** A checkpoint that lacks [final_norm.bias]. *)
Definition example_weights : list (string * Z) :=
  [ ("gpt.h.0.attn.c_attn.weight", 5%Z);
    ("gpt.wte.weight", 7%Z) ].

(** The multi-modal data of two requests over a conditioning matrix of
    two rows: one with no flag (a generation request) and one with the
    flag on (a logits-only request). *)
Definition ex_audio_priming : @Inputs.AudioData ex_row :=
  {| Inputs.embeds := Some (Inputs.VTensor (matrix [ex_c; ex_c]));
     Inputs.is_logits_only_mode := None |}.
Definition ex_audio_logits : @Inputs.AudioData ex_row :=
  {| Inputs.embeds := Some (Inputs.VTensor (matrix [ex_c; ex_c]));
     Inputs.is_logits_only_mode := Some true |}.
Definition ex_mm_priming : gmap string (@Inputs.AudioData ex_row) :=
  {[ "audio" := ex_audio_priming ]}.
Definition ex_mm_logits : gmap string (@Inputs.AudioData ex_row) :=
  {[ "audio" := ex_audio_logits ]}.

(** The processor of a model with hidden size 2 and start-audio token
    1024. *)
Definition ex_processor :=
  Inputs.input_processor_for_xtts2_gpt (row := ex_row) 2 1024.

(** A request of two conditioning rows and one audio token. *)
Definition ex_one_token : @Request ex_row :=
  {| cond := [ex_c; ex_c];
     prefix_ids := [1; 1]%Z; audio_ids := [7]%Z;
     prefix_positions := [0; 1]%Z; audio_positions := [2]%Z |}.

End Example.

(** * Properties *)

(** ** Phase classification *)

Section ClassifierFacts.
Import Classifier.

Lemma check_is_logits_only_mode_spec f :
  check_is_logits_only_mode f = truthy_spec f.
Proof. destruct f as [b|[|x [|y l]]|t]; reflexivity. Qed.

Lemma isin_sentinels_spec t : isin_sentinels t = true ↔ in_sentinel_set t.
Proof.
  unfold isin_sentinels, in_sentinel_set.
  rewrite orb_true_iff, !Z.eqb_eq. reflexivity.
Qed.

Lemma is_first_iteration_spec ids :
  is_first_iteration ids = true
  ↔ 1 < length ids ∧ Forall in_sentinel_set ids.
Proof.
  unfold is_first_iteration.
  rewrite andb_true_iff, Nat.ltb_lt, forallb_forall, Forall_forall.
  split; intros [Hlen Hall]; split; try assumption; intros t Ht.
  - apply isin_sentinels_spec, Hall. by apply list_elem_of_In.
  - apply isin_sentinels_spec, Hall. by apply list_elem_of_In.
Qed.

(** C4.  Phase classification computes the specification's classifier:
    LOGITS_ONLY when the flag is truthy (a boolean as it is, a one-element
    tensor by its truth value, any other tensor by any-true), else PRIMING
    when the packed tensor is longer than 1 and all of its tokens are
    sentinels, else INCREMENTAL; and a packed tensor of length at most 1 is
    never classified PRIMING. *)
Theorem classify_refines_spec (input_ids : list Z) (f : flag) :
  classify input_ids f = classify_spec input_ids f
  ∧ (length input_ids ≤ 1 → classify input_ids f ≠ PRIMING).
Proof.
  assert (Heq : classify input_ids f = classify_spec input_ids f).
  { unfold classify, classify_spec, phase_of.
    rewrite check_is_logits_only_mode_spec.
    destruct (truthy_spec f); simpl.
    - by rewrite andb_false_r.
    - rewrite andb_true_r.
      destruct (is_first_iteration input_ids) eqn:Hfirst; case_decide as Hd; try done.
      + exfalso. by apply Hd, is_first_iteration_spec.
      + apply is_first_iteration_spec in Hd. congruence. }
  split; [exact Heq|].
  intros Hlen. rewrite Heq. unfold classify_spec.
  destruct (truthy_spec f); [done|].
  case_decide as Hd; [lia|done].
Qed.

Lemma classify_refines_spec_witness :
  classify [1024%Z] (FlagBool false) = classify_spec [1024%Z] (FlagBool false)
  ∧ classify [1024%Z] (FlagBool false) ≠ PRIMING.
Proof.
  destruct (classify_refines_spec [1024%Z] (FlagBool false)) as [Heq Hne].
  split; [exact Heq|].
  apply Hne. simpl. lia.
Defined.

End ClassifierFacts.

(** ** The offset table *)

Section AlignmentFacts.
Import Alignment Spec.

Lemma bind_ok {A B} (a : A) (k : A → result B) : bind (ok a) k = k a.
Proof. reflexivity. Qed.

Lemma getitem_Some {A} (l : list A) i a : l !! i = Some a → getitem l i = ok a.
Proof. unfold getitem. by intros ->. Qed.

Lemma getitem_None {A} (l : list A) i : l !! i = None → getitem l i = raise IndexError.
Proof. unfold getitem. by intros ->. Qed.

Lemma sumZ_app l1 l2 : sumZ (l1 ++ l2) = (sumZ l1 + sumZ l2)%Z.
Proof. induction l1 as [|x l1 IH]; simpl; [done|]. rewrite IH. lia. Qed.

Lemma sumZ_take_S (ss : list Z) i s :
  ss !! i = Some s → sumZ (take (S i) ss) = (sumZ (take i ss) + s)%Z.
Proof.
  intros Hs. rewrite (take_S_r _ _ _ Hs), sumZ_app. simpl. lia.
Qed.

Lemma offsets_step_ok cs ss starts ends j :
  1 ≤ j → j < length cs → j < length ss →
  table_upto cs ss starts ends j →
  ∃ starts' ends',
    offsets_step cs ss (ok (starts, ends)) j = ok (starts', ends')
    ∧ table_upto cs ss starts' ends' (S j).
Proof.
  intros Hj Hcs Hss (Hls & Hle & Hst & Hen).
  destruct (lookup_lt_is_Some_2 cs j Hcs) as [c Hc].
  destruct (lookup_lt_is_Some_2 ss j Hss) as [s Hs].
  assert (Hprev : ends !! (j - 1) = Some (sumZ (take j ss))).
  { replace j with (S (j - 1)) at 2 by lia. apply Hen. lia. }
  eexists _, _. split.
  { unfold offsets_step. rewrite bind_ok. simpl.
    rewrite (getitem_Some _ _ _ Hprev), bind_ok.
    rewrite (getitem_Some _ _ _ Hc), bind_ok.
    rewrite (getitem_Some _ _ _ Hs), bind_ok. reflexivity. }
  repeat split.
  - rewrite length_app. simpl. lia.
  - rewrite length_app. simpl. lia.
  - intros i c' Hi Hc'. destruct (decide (i = j)) as [->|Hne].
    + rewrite lookup_app_r by lia. rewrite Hls, Nat.sub_diag. simpl.
      congruence.
    + rewrite lookup_app_l by lia. apply Hst; [lia|done].
  - intros i Hi. destruct (decide (i = j)) as [->|Hne].
    + rewrite lookup_app_r by lia. rewrite Hle, Nat.sub_diag. simpl.
      by rewrite (sumZ_take_S _ _ _ Hs).
    + rewrite lookup_app_l by lia. apply Hen. lia.
Qed.

Lemma offsets_loop cs ss k : ∀ j starts ends,
  1 ≤ j → j + k ≤ length cs → j + k ≤ length ss →
  table_upto cs ss starts ends j →
  ∃ starts' ends',
    foldl (offsets_step cs ss) (ok (starts, ends)) (seq j k) = ok (starts', ends')
    ∧ table_upto cs ss starts' ends' (j + k).
Proof.
  induction k as [|k IH]; intros j starts ends Hj Hcs Hss Htab.
  - exists starts, ends. rewrite Nat.add_0_r. by split.
  - change (foldl (offsets_step cs ss) (ok (starts, ends)) (seq j (S k)))
      with (foldl (offsets_step cs ss)
              (offsets_step cs ss (ok (starts, ends)) j) (seq (S j) k)).
    destruct (offsets_step_ok cs ss starts ends j) as (st1 & en1 & -> & Htab1);
      [lia..|done|].
    destruct (IH (S j) st1 en1) as (st2 & en2 & Hfold & Htab2); [lia..|done|].
    exists st2, en2. split; [done|]. by replace (j + S k) with (S j + k) by lia.
Qed.

(** The offset table exists as soon as the bundle is not empty and
    [seq_lens] has an entry for each of its tensors, and is the closed form. *)
Lemma offset_table_upto cs ss :
  cs ≠ [] → length cs ≤ length ss →
  ∃ starts ends,
    offset_table cs ss = ok (starts, ends)
    ∧ table_upto cs ss starts ends (length cs).
Proof.
  intros Hne Hlen.
  destruct cs as [|c0 cs']; [done|]. destruct ss as [|s0 ss']; [simpl in Hlen; lia|].
  change (offset_table (c0 :: cs') (s0 :: ss'))
    with (foldl (offsets_step (c0 :: cs') (s0 :: ss')) (ok ([c0], [s0]))
            (seq 1 (length (c0 :: cs') - 1))).
  destruct (offsets_loop (c0 :: cs') (s0 :: ss') (length (c0 :: cs') - 1) 1 [c0] [s0])
    as (starts & ends & Hfold & Htab).
  - lia.
  - simpl. lia.
  - simpl in *. lia.
  - repeat split.
    + intros i c Hi Hc. assert (i = 0) as -> by lia. simpl in *.
      f_equal. injection Hc as ->. lia.
    + intros i Hi. assert (i = 0) as -> by lia. simpl. f_equal. lia.
  - exists starts, ends. split; [exact Hfold|].
    by replace (1 + (length (c0 :: cs') - 1)) with (length (c0 :: cs')) in Htab
      by (simpl; lia).
Qed.

(** C1.  For a bundle of N >= 1 tensors with conditioning lengths [cs] and
    as many sequence lengths [ss], the table is computed, has N entries,
    begins with start_0 = c_0 and end_0 = s_0, continues with
    start_i = end_(i-1) + c_i and end_i = end_(i-1) + s_i, and so has
    end_i - start_i = s_i - c_i throughout; for conditioning lengths [3, 2]
    and sequence lengths [5, 4] the offsets are (3,5) and (7,9) and the
    audio-token counts [2, 2]. *)
Theorem offset_table_correct (cs ss : list Z) :
  cs ≠ [] → length ss = length cs →
  (∃ starts ends,
     offset_table cs ss = ok (starts, ends)
     ∧ length starts = length cs ∧ length ends = length cs
     ∧ starts !! 0 = cs !! 0 ∧ ends !! 0 = ss !! 0
     ∧ (∀ i c s, 1 ≤ i → cs !! i = Some c → ss !! i = Some s →
          ∃ prev_end, ends !! (i - 1) = Some prev_end
            ∧ starts !! i = Some (prev_end + c)%Z
            ∧ ends !! i = Some (prev_end + s)%Z)
     ∧ (∀ i c s, cs !! i = Some c → ss !! i = Some s →
          ∃ start_i end_i, starts !! i = Some start_i ∧ ends !! i = Some end_i
            ∧ (end_i - start_i = s - c)%Z)
     ∧ ids_for_unpacking starts ends = zip_with Z.sub ss cs)
  ∧ offset_table [3; 2]%Z [5; 4]%Z = ok ([3; 7]%Z, [5; 9]%Z)
  ∧ ids_for_unpacking [3; 7]%Z [5; 9]%Z = [2; 2]%Z.
Proof.
  intros Hne Hlen. split; [|by split].
  destruct (offset_table_upto cs ss Hne) as (starts & ends & Htable & Htab);
    [lia|].
  destruct Htab as (Hls & Hle & Hst & Hen).
  assert (Hdiff : ∀ i c s, cs !! i = Some c → ss !! i = Some s →
            starts !! i = Some (sumZ (take i ss) + c)%Z
            ∧ ends !! i = Some (sumZ (take i ss) + s)%Z).
  { intros i c s Hc Hs. pose proof (lookup_lt_Some _ _ _ Hc) as Hi. split.
    - by apply Hst.
    - rewrite Hen by done. by rewrite (sumZ_take_S _ _ _ Hs). }
  exists starts, ends. split; [exact Htable|]. split_and!; try done.
  - destruct cs as [|c0 cs']; [done|]. destruct ss as [|s0 ss']; [done|].
    destruct (Hdiff 0 c0 s0) as [H0 _]; [done..|]. rewrite H0; simpl; f_equal; lia.
  - destruct cs as [|c0 cs']; [done|]. destruct ss as [|s0 ss']; [done|].
    destruct (Hdiff 0 c0 s0) as [_ H0]; [done..|]. rewrite H0; simpl; f_equal; lia.
  - intros i c s Hi Hc Hs. destruct (Hdiff i c s Hc Hs) as [Hsi Hei].
    pose proof (lookup_lt_Some _ _ _ Hc) as Hlt.
    exists (sumZ (take i ss)). split_and!; try done.
    replace i with (S (i - 1)) at 2 by lia. apply Hen. lia.
  - intros i c s Hc Hs. destruct (Hdiff i c s Hc Hs) as [Hsi Hei].
    eexists _, _. split_and!; [done..|lia].
  - apply list_eq. intros i. unfold ids_for_unpacking.
    rewrite !lookup_zip_with.
    destruct (cs !! i) as [c|] eqn:Hc.
    + destruct (lookup_lt_is_Some_2 ss i) as [s Hs].
      { rewrite Hlen. by eapply lookup_lt_Some. }
      destruct (Hdiff i c s Hc Hs) as [-> ->]. rewrite Hs. simpl. f_equal. lia.
    + apply lookup_ge_None in Hc.
      rewrite (proj2 (lookup_ge_None starts i)) by lia. simpl.
      rewrite (proj2 (lookup_ge_None ss i)) by lia. done.
Qed.

Lemma offset_table_correct_witness :
  (∃ starts ends,
     offset_table [3; 0; 2]%Z [5; 4; 2]%Z = ok (starts, ends)
     ∧ ids_for_unpacking starts ends = [2; 4; 0]%Z)
  ∧ offset_table [3; 2]%Z [5; 4]%Z = ok ([3; 7]%Z, [5; 9]%Z).
Proof.
  destruct (offset_table_correct [3; 0; 2]%Z [5; 4; 2]%Z)
    as [(starts & ends & Htable & _ & _ & _ & _ & _ & _ & Hids) [Hex _]].
  - discriminate.
  - reflexivity.
  - split; [|exact Hex]. exists starts, ends. split; [exact Htable|exact Hids].
Defined.

End AlignmentFacts.

(** ** Weight loading *)

Section WeightsFacts.
Import Weights Spec.

Context {W : Type}.
Variable transpose : W → W.
Variable weight_loader : string → W → W → W.

Notation load_one := (load_one transpose weight_loader).
Notation load_weights := (load_weights transpose weight_loader).
Notation as_bound := (as_bound transpose).

Lemma load_one_skip (st : loader_state) item :
  item.1 ∉ dom st.1 → load_one st item = st.
Proof.
  intros Hnot. unfold Weights.load_one.
  by rewrite (proj1 (not_elem_of_dom _ _) Hnot).
Qed.

Lemma load_one_dom (st : loader_state) item :
  dom (load_one st item).1 = dom st.1.
Proof.
  unfold Weights.load_one. destruct (st.1 !! item.1) as [param|] eqn:Hp; [|done].
  simpl. rewrite dom_insert_L.
  assert (item.1 ∈ dom st.1) by (apply elem_of_dom; eauto). set_solver.
Qed.

Lemma load_one_loaded (st : loader_state) item :
  (load_one st item).2 = st.2 ∪ ({[item.1]} ∩ dom st.1).
Proof.
  unfold Weights.load_one. destruct (st.1 !! item.1) as [param|] eqn:Hp; simpl.
  - assert (item.1 ∈ dom st.1) by (apply elem_of_dom; eauto). set_solver.
  - apply not_elem_of_dom in Hp. set_solver.
Qed.

Lemma load_one_other (st : loader_state) item name :
  item.1 ≠ name → (load_one st item).1 !! name = st.1 !! name.
Proof.
  intros Hne. unfold Weights.load_one.
  destruct (st.1 !! item.1) as [param|]; [|done].
  simpl. by rewrite lookup_insert_ne.
Qed.

Lemma load_all_dom weights : ∀ st : loader_state,
  dom (foldl load_one st weights).1 = dom st.1.
Proof.
  induction weights as [|item weights IH]; intros st; [done|].
  simpl. by rewrite IH, load_one_dom.
Qed.

Lemma load_all_loaded weights : ∀ st : loader_state,
  (foldl load_one st weights).2 = st.2 ∪ (supplied weights ∩ dom st.1).
Proof.
  unfold supplied.
  induction weights as [|item weights IH]; intros st; simpl.
  - set_solver.
  - rewrite IH, load_one_dom, load_one_loaded. set_solver.
Qed.

Lemma load_all_untouched weights name : ∀ st : loader_state,
  name ∉ supplied weights → (foldl load_one st weights).1 !! name = st.1 !! name.
Proof.
  unfold supplied.
  induction weights as [|item weights IH]; intros st Hnot; [done|].
  simpl in *. rewrite IH by set_solver. apply load_one_other. set_solver.
Qed.

Lemma load_all_bound weights name w init : ∀ st : loader_state,
  NoDup weights.*1 → (name, w) ∈ weights → st.1 !! name = Some init →
  (foldl load_one st weights).1 !! name
  = Some (weight_loader name init (as_bound name w)).
Proof.
  induction weights as [|item weights IH]; intros st Hnd Hin Hinit.
  - by apply elem_of_nil in Hin.
  - simpl in *. apply NoDup_cons in Hnd as [Hfresh Hnd].
    apply elem_of_cons in Hin as [<-|Hin].
    + rewrite load_all_untouched.
      * unfold Weights.load_one. simpl. rewrite Hinit. simpl.
        by rewrite lookup_insert_eq.
      * unfold supplied. by rewrite elem_of_list_to_set.
    + apply IH; [done..|]. rewrite load_one_other; [done|].
      intros Heq. apply Hfresh. rewrite Heq.
      change name with (name, w).1. by apply list_elem_of_fmap_2.
Qed.

Lemma load_all_filter weights (D : gset string) : ∀ st : loader_state,
  dom st.1 = D →
  foldl load_one st weights
  = foldl load_one st (filter (fun item => item.1 ∈ D) weights).
Proof.
  induction weights as [|item weights IH]; intros st HD; [done|].
  rewrite filter_cons. case_decide as Hin; simpl.
  - apply IH. by rewrite load_one_dom.
  - rewrite load_one_skip by by rewrite HD. by apply IH.
Qed.

Lemma load_weights_outcome params weights :
  (load_weights params weights).2
  = check_loaded params (supplied weights ∩ dom params).
Proof.
  unfold Weights.load_weights. simpl. rewrite load_all_loaded. simpl.
  f_equal. set_solver.
Qed.

(** C8.  Loading binds the declared parameters by exact name and ends in
    the missing-weights failure exactly when some declared parameter was
    not supplied, naming all of those and no other; a complete set of
    names leaves nothing unbound, and a set that lacks one declared name
    fails naming exactly that one. *)
Theorem load_weights_complete (params : gmap string W) (weights : list (string * W)) :
  let final := load_weights params weights in
  dom final.1 = dom params
  ∧ (∀ name w init, NoDup weights.*1 → (name, w) ∈ weights →
       params !! name = Some init →
       final.1 !! name = Some (weight_loader name init (as_bound name w)))
  ∧ (∀ name, name ∉ supplied weights → final.1 !! name = params !! name)
  ∧ (dom params ⊆ supplied weights → final.2 = Loaded)
  ∧ (dom params ⊈ supplied weights →
       final.2 = MissingWeights (dom params ∖ supplied weights))
  ∧ (∀ missing, final.2 = MissingWeights missing →
       missing ≠ ∅
       ∧ ∀ name, name ∈ missing ↔ name ∈ dom params ∧ name ∉ supplied weights)
  ∧ (supplied weights = dom params → final.2 = Loaded)
  ∧ (∀ name, name ∈ dom params → supplied weights = dom params ∖ {[name]} →
       final.2 = MissingWeights {[name]}).
Proof.
  intros final.
  assert (Hout : final.2 = check_loaded params (supplied weights ∩ dom params))
    by apply load_weights_outcome.
  assert (Hloaded : dom params ⊆ supplied weights → final.2 = Loaded).
  { intros Hsub. rewrite Hout. unfold check_loaded.
    case_decide as Hd; [done|]. exfalso. apply Hd. set_solver. }
  assert (Hmissing : dom params ⊈ supplied weights →
            final.2 = MissingWeights (dom params ∖ supplied weights)).
  { intros Hsub. rewrite Hout. unfold check_loaded.
    case_decide as Hd.
    - exfalso. apply Hsub. intros name Hname.
      destruct (decide (name ∈ supplied weights)) as [|Hnot]; [done|].
      exfalso. assert (name ∈ (∅ : gset string)) as Hin; [|set_solver].
      rewrite <- Hd. set_solver.
    - f_equal. set_solver. }
  split_and!.
  - apply (load_all_dom weights (params, ∅)).
  - intros name w init Hnd Hin Hinit.
    by apply (load_all_bound weights name w init (params, ∅)).
  - intros name Hnot. by apply (load_all_untouched weights name (params, ∅)).
  - exact Hloaded.
  - exact Hmissing.
  - intros missing Hm.
    destruct (decide (dom params ⊆ supplied weights)) as [Hsub|Hsub].
    + rewrite (Hloaded Hsub) in Hm. discriminate.
    + rewrite (Hmissing Hsub) in Hm. injection Hm as <-. split; [|set_solver].
      intros Hempty. apply Hsub. intros name Hname.
      destruct (decide (name ∈ supplied weights)) as [|Hnot]; [done|].
      exfalso. assert (name ∈ (∅ : gset string)) as Hin; [|set_solver].
      rewrite <- Hempty. set_solver.
  - intros Heq. apply Hloaded. by rewrite Heq.
  - intros name Hname Heq. rewrite Hmissing.
    + f_equal. rewrite Heq. apply set_eq. intros x.
      rewrite !elem_of_difference, elem_of_singleton.
      split; [|intros ->; set_solver].
      intros [Hx Hnx]. destruct (decide (x = name)) as [|Hne]; [done|].
      exfalso. apply Hnx. set_solver.
    + rewrite Heq. intros Hsub. specialize (Hsub name Hname). set_solver.
Qed.

(** C10.  A supplied pair whose name is not a declared parameter is
    skipped: the parameters and the outcome are those of loading the
    weight set with every such pair removed. *)
Theorem load_weights_skips_unknown (params : gmap string W)
    (weights : list (string * W)) :
  load_weights params weights
  = load_weights params (filter (fun item => item.1 ∈ dom params) weights).
Proof.
  unfold Weights.load_weights.
  by rewrite <- (load_all_filter weights (dom params) (params, ∅)).
Qed.

End WeightsFacts.

Section WeightsExamples.
Import Weights Spec Example.

Lemma load_weights_complete_witness :
  (load_weights Z.opp (fun _ _ w => w) example_params example_weights).2
  = MissingWeights {[ "final_norm.bias" ]}
  ∧ (load_weights Z.opp (fun _ _ w => w) example_params example_weights).1
      !! "gpt.h.0.attn.c_attn.weight" = Some (-5)%Z
  ∧ (load_weights Z.opp (fun _ _ w => w) example_params
       (("final_norm.bias", 1%Z) :: example_weights)).2 = Loaded.
Proof.
  pose proof (load_weights_complete Z.opp (fun _ _ w => w) example_params
                example_weights) as Hthm.
  cbv zeta in Hthm.
  destruct Hthm as (_ & Hbound & _ & _ & _ & _ & _ & Hone).
  split_and!.
  - apply Hone; [by vm_compute|]. by vm_compute.
  - rewrite (Hbound "gpt.h.0.attn.c_attn.weight" 5%Z 0%Z).
    + reflexivity.
    + vm_compute. repeat constructor; set_solver.
    + set_solver.
    + reflexivity.
  - pose proof (load_weights_complete Z.opp (fun _ _ w => w) example_params
                  (("final_norm.bias", 1%Z) :: example_weights)) as Hthm.
    cbv zeta in Hthm.
    destruct Hthm as (_ & _ & _ & Hall & _).
    apply Hall. by vm_compute.
Defined.

End WeightsExamples.

(** ** Assembly of the hidden states *)

Section AssemblerFacts.
Import Torch GPT2Model Spec.

Context {row : Type}.
Variable embed_dim : nat.
Variable wte : table row.
Variable emb : table row.
Variable radd : row → row → row.

Notation select_tokens := (select_tokens embed_dim).
Notation embed_tokens := (embed_tokens wte emb radd).
Notation assemble := (assemble embed_dim wte emb radd).
Notation start_row := (start_row wte emb radd).
Notation audio_rows := (audio_rows wte emb radd).
Notation in_tables := (in_tables wte emb).
Notation Request := (@Request row).

Lemma shape0_matrix (rows : list row) : shape0 embed_dim (matrix rows) = length rows.
Proof. reflexivity. Qed.

Lemma cat0_matrices (ts : list (tensor row)) :
  ts ≠ [] → Forall (fun t => ∃ n, lead t = [n]) ts →
  ∃ n, cat0 ts = ok (Tensor [n] (concat (map cells ts))).
Proof.
  intros Hne Hall. destruct ts as [|t ts']; [done|].
  unfold cat0. pose proof (Forall_inv Hall) as [n Hn]. rewrite Hn.
  assert (forallb (same_trailing_dims []) (t :: ts') = true) as ->.
  { apply forallb_forall. intros u Hu. apply list_elem_of_In in Hu.
    rewrite Forall_forall in Hall. destruct (Hall u Hu) as [m Hm].
    unfold same_trailing_dims. rewrite Hm. by apply bool_decide_eq_true. }
  eauto.
Qed.

Lemma lookup_row_inside {A} (t : table A) (i : Z) :
  in_table t i → lookup_row t i = ok (t i).
Proof.
  intros [Hlo Hhi]. unfold lookup_row.
  destruct (Z.leb_spec 0 i); [|lia]. by destruct (Z.ltb_spec i (num_embeddings t)); [|lia].
Qed.

Lemma lookup_row_outside {A} (t : table A) (i : Z) :
  ¬ in_table t i → lookup_row t i = raise IndexError.
Proof.
  intros Hout. unfold lookup_row, in_table in *.
  destruct (Z.leb_spec 0 i); [|done].
  destruct (Z.ltb_spec i (num_embeddings t)); [lia|done].
Qed.

Lemma lookup_rows_inside {A} (t : table A) (indices : list Z) :
  Forall (in_table t) indices → lookup_rows t indices = ok (map t indices).
Proof.
  induction 1 as [|i indices Hi _ IH]; simpl; [done|].
  by rewrite (lookup_row_inside _ _ Hi), bind_ok, IH.
Qed.

Lemma lookup_rows_outside {A} (t : table A) (indices : list Z) :
  ¬ Forall (in_table t) indices → lookup_rows t indices = raise IndexError.
Proof.
  induction indices as [|i indices IH]; intros Hout; [by destruct Hout|].
  simpl. destruct (decide (0 ≤ i < num_embeddings t)%Z) as [Hi|Hi].
  - rewrite (lookup_row_inside _ _ Hi), bind_ok, IH; [done|].
    intros Hall. apply Hout. by constructor.
  - by rewrite (lookup_row_outside _ _ Hi).
Qed.

Lemma embedding_inside {A} (t : table A) (indices : tensor Z) :
  Forall (in_table t) (cells indices) →
  embedding t indices = ok (Tensor (lead indices) (map t (cells indices))).
Proof. intros Hall. unfold embedding. by rewrite lookup_rows_inside. Qed.

Lemma priming_hidden input_ids position_ids attn_metadata
    (input_embeds : option (Conditioning row)) last_id :
  last input_ids = Some last_id →
  in_table wte last_id → in_table emb 0 →
  ∃ sel,
    select_tokens input_ids position_ids attn_metadata input_embeds true false
    = ok sel
    ∧ embed_tokens true sel = ok (Tensor [1] [start_row last_id]).
Proof.
  intros Hlast Hid Hpos. eexists. split.
  - unfold GPT2Model.select_tokens, getitem_last. simpl. rewrite Hlast. reflexivity.
  - unfold GPT2Model.embed_tokens, wpe_forward. cbn [sel_input_ids negb seq map].
    rewrite !embedding_inside by (simpl; by apply Forall_singleton).
    reflexivity.
Qed.

(** C6.  In the priming pass with a single conditioning tensor, the
    tensor's last row is dropped before the concatenation exactly when its
    row count equals [num_prefill_tokens]: on equality the output is the
    conditioning without its trailing row followed by the new token's row,
    one row shorter than otherwise; on any other count it is the whole
    conditioning followed by that row.  The retained token and position 0
    are inside the embedding tables. *)
Theorem priming_single_trailing_row (input_ids position_ids : list Z)
    (attn_metadata : AttentionMetadata) (t : tensor row) (last_id : Z) :
  last input_ids = Some last_id →
  in_table wte last_id → in_table emb 0 →
  Classifier.phase_of true false = Classifier.PRIMING
  ∧ ∃ out,
      assemble input_ids position_ids attn_metadata (Some (Single t)) true false
      = ok out
      ∧ (Z.of_nat (length (cells t)) = num_prefill_tokens attn_metadata →
           out = py_drop_last (cells t) ++ [start_row last_id]
           ∧ (∀ kept trailing, cells t = kept ++ [trailing] →
                out = kept ++ [start_row last_id]
                ∧ length out = length (cells t)))
      ∧ (Z.of_nat (length (cells t)) ≠ num_prefill_tokens attn_metadata →
           out = cells t ++ [start_row last_id]
           ∧ length out = S (length (cells t))).
Proof.
  intros Hlast Hid Hpos. split; [reflexivity|].
  destruct (priming_hidden input_ids position_ids attn_metadata
              (Some (Single t)) last_id Hlast Hid Hpos) as (sel & Hsel & Hemb).
  unfold GPT2Model.assemble. rewrite Hsel, bind_ok, Hemb, bind_ok. simpl.
  change (shape0 embed_dim (view2d t)) with (length (cells t)).
  destruct (Z.eqb_spec (Z.of_nat (length (cells t)))
              (num_prefill_tokens attn_metadata)) as [Heq|Hne]; simpl.
  - eexists. split; [reflexivity|]. split.
    + intros _. split; [done|]. intros kept trailing Hcells.
      unfold py_drop_last. rewrite Hcells, length_app. simpl.
      replace (length kept + 1 - 1) with (length kept) by lia.
      rewrite take_app_length. split; [done|]. rewrite !length_app. simpl. lia.
    + intros Hne. done.
  - eexists. split; [reflexivity|]. split.
    + intros Heq. done.
    + intros _. split; [done|]. rewrite length_app. simpl. lia.
Qed.

(** C9.  In the priming pass with a list of N >= 1 conditioning tensors,
    the output is cond_0, h, cond_1, h, ..., cond_(N-1), h, where h is the
    one row of the retained last input token, the same after every
    conditioning tensor.  The retained token and position 0 are inside the
    embedding tables. *)
Theorem priming_list_interleaves (input_ids position_ids : list Z)
    (attn_metadata : AttentionMetadata) (embeds : list (tensor row))
    (last_id : Z) :
  embeds ≠ [] → last input_ids = Some last_id →
  in_table wte last_id → in_table emb 0 →
  assemble input_ids position_ids attn_metadata (Some (PerRequest embeds))
    true false
  = ok (concat (map (fun cond => cells cond ++ [start_row last_id]) embeds)).
Proof.
  intros Hne Hlast Hid Hpos.
  destruct (priming_hidden input_ids position_ids attn_metadata
              (Some (PerRequest embeds)) last_id Hlast Hid Hpos)
    as (sel & Hsel & Hemb).
  unfold GPT2Model.assemble. rewrite Hsel, bind_ok, Hemb, bind_ok. simpl.
  rewrite length_map.
  destruct (cat0_matrices
              (interleave (map view2d embeds)
                 (replicate (length embeds) (Tensor [1] [start_row last_id]))))
    as [n ->].
  - destruct embeds; [done|]. discriminate.
  - clear. induction embeds as [|e embeds IH]; simpl; [constructor|].
    repeat constructor; eauto.
  - simpl. f_equal. clear. induction embeds as [|e embeds IH]; [done|].
    simpl. rewrite <- IH. unfold interleave. simpl. by rewrite <- app_assoc.
Qed.

(** *** The logits-only pass over a packed batch *)

Lemma slice_bound_in_range n i : (0 ≤ i ≤ n)%Z → slice_bound n i = i.
Proof. intros Hi. unfold slice_bound. destruct (Z.ltb_spec i 0); lia. Qed.

Lemma py_slice_middle {A} (before middle after : list A) :
  py_slice (before ++ middle ++ after)
    (Z.of_nat (length before)) (Z.of_nat (length before + length middle))
  = middle.
Proof.
  unfold py_slice. rewrite !length_app.
  rewrite !slice_bound_in_range by lia.
  replace (Z.to_nat (Z.of_nat (length before + length middle)
                     - Z.of_nat (length before))) with (length middle) by lia.
  rewrite Nat2Z.id, drop_app_length. apply take_app_length.
Qed.

Lemma py_slice_from_drop {A} (l : list A) (k : nat) :
  py_slice_from l (Z.of_nat k) = drop k l.
Proof.
  unfold py_slice_from, slice_bound.
  destruct (Z.ltb_spec (Z.of_nat k) 0); [lia|].
  destruct (decide (k ≤ length l)).
  - by rewrite Z.min_l, Nat2Z.id by lia.
  - rewrite Z.min_r, Nat2Z.id by lia. rewrite !drop_ge; [done|lia..].
Qed.

Lemma sumZ_lengths {A} (xss : list (list A)) :
  sumZ (map (fun xs => Z.of_nat (length xs)) xss) = Z.of_nat (length (concat xss)).
Proof.
  induction xss as [|xs xss IH]; simpl; [done|]. rewrite IH, length_app. lia.
Qed.

Lemma zip_with_concat {A B C} (f : A → B → C) (xss : list (list A))
    (yss : list (list B)) :
  Forall2 (fun xs ys => length xs = length ys) xss yss →
  zip_with f (concat xss) (concat yss) = concat (zip_with (zip_with f) xss yss).
Proof.
  induction 1 as [|xs ys xss yss Hlen _ IH]; simpl; [done|].
  by rewrite zip_with_app, IH.
Qed.

Lemma split_cells_concat {A} (chunks : list (list A)) :
  split_cells [] (map (fun xs => Z.of_nat (length xs)) chunks) (concat chunks)
  = map matrix chunks.
Proof.
  induction chunks as [|xs chunks IH]; simpl; [done|].
  rewrite Nat2Z.id, Nat.mul_1_r, take_app_length, drop_app_length, IH. done.
Qed.

Lemma split0_concat {A} (chunks : list (list A)) :
  split0 (Tensor [length (concat chunks)] (concat chunks))
         (map (fun xs => Z.of_nat (length xs)) chunks)
  = ok (map matrix chunks).
Proof.
  unfold split0. simpl.
  assert (forallb (Z.leb 0) (map (fun xs : list A => Z.of_nat (length xs)) chunks)
          = true) as ->.
  { apply forallb_forall. intros z Hz. apply in_map_iff in Hz as (xs & <- & _).
    apply Z.leb_le. lia. }
  rewrite sumZ_lengths, Z.eqb_refl. simpl. by rewrite split_cells_concat.
Qed.

Lemma lookup_map {A B} (f : A → B) (l : list A) i :
  map f l !! i = f <$> l !! i.
Proof. apply (list_lookup_fmap f l i). Qed.

Lemma seq_lens_prefix_sum (reqs : list Request) (extra : list Z) i :
  i ≤ length reqs →
  sumZ (take i (seq_lens_of reqs ++ extra))
  = Z.of_nat (length (packed_ids (take i reqs))).
Proof.
  intros Hi. rewrite take_app_le by (unfold seq_lens_of; rewrite length_map; lia).
  unfold seq_lens_of, packed_ids.
  rewrite firstn_map, <- sumZ_lengths. by rewrite map_map.
Qed.

(** What each entry of the offset table is, for a packed batch. *)
Lemma packed_table_entries (reqs : list Request) (extra : list Z) starts ends :
  Forall well_packed reqs →
  table_upto (cond_lens_of reqs) (seq_lens_of reqs ++ extra) starts ends
    (length reqs) →
  ∀ i r, reqs !! i = Some r →
    let base := length (packed_ids (take i reqs)) in
    starts !! i = Some (Z.of_nat (base + length (prefix_ids r)))
    ∧ ends !! i
      = Some (Z.of_nat (base + length (prefix_ids r) + length (audio_ids r))).
Proof.
  intros Hwf (Hls & Hle & Hst & Hen) i r Hr base.
  pose proof (lookup_lt_Some _ _ _ Hr) as Hi.
  rewrite Forall_forall in Hwf.
  destruct (Hwf r) as (Hp & _); [by eapply list_elem_of_lookup_2|].
  split.
  - rewrite (Hst i (Z.of_nat (length (cond r)))); [|done|].
    + rewrite seq_lens_prefix_sum by lia. f_equal. subst base. lia.
    + unfold cond_lens_of. by rewrite lookup_map, Hr.
  - rewrite Hen by done.
    rewrite (sumZ_take_S _ _ (Z.of_nat (length (prefix_ids r ++ audio_ids r)))).
    + rewrite seq_lens_prefix_sum by lia. f_equal. rewrite length_app.
      subst base. lia.
    + rewrite lookup_app_l by (unfold seq_lens_of; rewrite length_map; lia).
      unfold seq_lens_of. by rewrite lookup_map, Hr.
Qed.

Lemma packed_zip_offsets {B} (f : Z → Z → B) (g : Request → B)
    (reqs : list Request) (extra : list Z) starts ends :
  Forall well_packed reqs →
  table_upto (cond_lens_of reqs) (seq_lens_of reqs ++ extra) starts ends
    (length reqs) →
  (∀ i r, reqs !! i = Some r →
     let base := length (packed_ids (take i reqs)) in
     f (Z.of_nat (base + length (prefix_ids r)))
       (Z.of_nat (base + length (prefix_ids r) + length (audio_ids r)))
     = g r) →
  zip_with f starts ends = map g reqs.
Proof.
  intros Hwf Htab Hfg. apply list_eq. intros i.
  rewrite lookup_zip_with, lookup_map.
  destruct (reqs !! i) as [r|] eqn:Hr.
  - destruct (packed_table_entries reqs extra starts ends Hwf Htab i r Hr)
      as [-> ->].
    simpl. f_equal. by apply Hfg.
  - apply lookup_ge_None in Hr. destruct Htab as (Hls & _).
    rewrite (proj2 (lookup_ge_None starts i)) by lia. done.
Qed.

Lemma packed_split (reqs : list Request) i r :
  reqs !! i = Some r →
  reqs = take i reqs ++ r :: drop (S i) reqs.
Proof. intros Hr. by rewrite take_drop_middle. Qed.

Lemma packed_ids_slice (reqs : list Request) (extra : list Z) i r :
  reqs !! i = Some r →
  let base := length (packed_ids (take i reqs)) in
  py_slice (packed_ids reqs ++ extra)
    (Z.of_nat (base + length (prefix_ids r)))
    (Z.of_nat (base + length (prefix_ids r) + length (audio_ids r)))
  = audio_ids r.
Proof.
  intros Hr base. subst base.
  rewrite (packed_split reqs i r Hr) at 1.
  unfold packed_ids at 1. rewrite map_app, concat_app. simpl.
  fold (packed_ids (take i reqs)).
  rewrite <- !app_assoc.
  rewrite (app_assoc (packed_ids (take i reqs)) (prefix_ids r)).
  rewrite <- length_app.
  apply (py_slice_middle (packed_ids (take i reqs) ++ prefix_ids r)).
Qed.

Lemma packed_positions_slice (reqs : list Request) (extra : list Z) i r :
  Forall well_packed reqs →
  reqs !! i = Some r →
  let base := length (packed_ids (take i reqs)) in
  py_slice (packed_positions reqs ++ extra)
    (Z.of_nat (base + length (prefix_ids r)))
    (Z.of_nat (base + length (prefix_ids r) + length (audio_ids r)))
  = audio_positions r.
Proof.
  intros Hwf Hr base. subst base.
  assert (Hlen : ∀ l : list Request, Forall well_packed l →
            length (packed_ids l) = length (packed_positions l)).
  { induction 1 as [|x l (Hp & Hpp & Hap) _ IH]; [done|].
    unfold packed_ids, packed_positions in *. simpl.
    rewrite !length_app, IH. lia. }
  rewrite Hlen by by apply Forall_take.
  rewrite Forall_forall in Hwf.
  destruct (Hwf r) as (Hp & Hpp & Hap); [by eapply list_elem_of_lookup_2|].
  rewrite Hp, <- Hpp, <- Hap.
  rewrite (packed_split reqs i r Hr) at 1.
  unfold packed_positions at 1. rewrite map_app, concat_app. simpl.
  fold (packed_positions (take i reqs)).
  rewrite <- !app_assoc.
  rewrite (app_assoc (packed_positions (take i reqs)) (prefix_positions r)).
  rewrite <- length_app.
  apply (py_slice_middle (packed_positions (take i reqs) ++ prefix_positions r)).
Qed.

Lemma starting_idx_bundle (reqs : list Request) :
  map (fun input_embed => Z.of_nat (shape0 embed_dim input_embed)) (bundle reqs)
  = cond_lens_of reqs.
Proof. unfold bundle, cond_lens_of. by rewrite map_map. Qed.

(** On a packed batch the offsets cut out each request's audio tokens and
    positions, whatever follows the batch in the packed tensors and in
    [seq_lens]. *)
Lemma select_packed (reqs : list Request) (extra_ids extra_positions extra_lens : list Z)
    (npt : Z) (is_first_iteration : bool) :
  reqs ≠ [] → Forall well_packed reqs →
  ∃ starts ends,
    Alignment.offset_table (cond_lens_of reqs) (seq_lens_of reqs ++ extra_lens)
    = ok (starts, ends)
    ∧ Alignment.slices (packed_ids reqs ++ extra_ids) starts ends
      = map audio_ids reqs
    ∧ Alignment.slices (packed_positions reqs ++ extra_positions) starts ends
      = map audio_positions reqs
    ∧ select_tokens (packed_ids reqs ++ extra_ids)
        (packed_positions reqs ++ extra_positions)
        (metadata_of reqs extra_lens npt)
        (Some (PerRequest (bundle reqs))) is_first_iteration true
      = ok {| sel_input_ids :=
                Tensor [1; length (concat (map audio_ids reqs))]
                       (concat (map audio_ids reqs));
              sel_position_ids := concat (map audio_positions reqs);
              sel_ids_for_unpacking :=
                map (fun r => Z.of_nat (length (audio_ids r))) reqs |}.
Proof.
  intros Hne Hwf.
  destruct (offset_table_upto (cond_lens_of reqs) (seq_lens_of reqs ++ extra_lens))
    as (starts & ends & Htable & Htab).
  { destruct reqs; [done|discriminate]. }
  { unfold cond_lens_of, seq_lens_of. rewrite length_app, !length_map. lia. }
  assert (Hn : length (cond_lens_of reqs) = length reqs)
    by (unfold cond_lens_of; by rewrite length_map).
  rewrite Hn in Htab.
  assert (Hids : Alignment.slices (packed_ids reqs ++ extra_ids) starts ends
                 = map audio_ids reqs).
  { apply (packed_zip_offsets _ _ reqs extra_lens starts ends Hwf Htab).
    intros i r Hr. by apply packed_ids_slice. }
  assert (Hpos : Alignment.slices (packed_positions reqs ++ extra_positions)
                   starts ends = map audio_positions reqs).
  { apply (packed_zip_offsets _ _ reqs extra_lens starts ends Hwf Htab).
    intros i r Hr. by apply packed_positions_slice. }
  assert (Hunp : Alignment.ids_for_unpacking starts ends
                 = map (fun r => Z.of_nat (length (audio_ids r))) reqs).
  { apply (packed_zip_offsets _ _ reqs extra_lens starts ends Hwf Htab).
    intros i r Hr. simpl. lia. }
  exists starts, ends. split_and!; try done.
  unfold GPT2Model.select_tokens.
  rewrite andb_false_r. simpl seq_lens.
  rewrite starting_idx_bundle, Htable, bind_ok. simpl.
  by rewrite Hids, Hpos, Hunp.
Qed.

Lemma zip_with_map2 {A B A' B' C} (f : A' → B' → C) (g : A → A') (k : B → B')
    (xs : list A) (ys : list B) :
  zip_with f (map g xs) (map k ys) = zip_with (fun x y => f (g x) (k y)) xs ys.
Proof.
  revert ys. induction xs as [|x xs IH]; intros [|y ys]; simpl; [done..|].
  by rewrite IH.
Qed.

Lemma zip_with_ignore_r {A B C} (f : A → C) (xs : list A) (ys : list B) :
  length xs = length ys → zip_with (fun x _ => f x) xs ys = map f xs.
Proof.
  revert ys. induction xs as [|x xs IH]; intros [|y ys] Hlen; simpl in *;
    [done..|]. rewrite IH; [done|lia].
Qed.

(** The summed embeddings of the selected tokens: one row per token as
    long as the pass is over an all-sentinel tensor or selects at least two
    positions. *)
Lemma embed_selected (ids positions unpack : list Z) (is_first_iteration : bool) :
  length ids = length positions →
  is_first_iteration = true ∨ 2 ≤ length positions →
  Forall (in_table wte) ids →
  (if is_first_iteration then in_table emb 0
   else Forall (in_table emb) positions) →
  embed_tokens is_first_iteration
    {| sel_input_ids := Tensor [1; length ids] ids;
       sel_position_ids := positions;
       sel_ids_for_unpacking := unpack |}
  = ok (Tensor [length ids]
          (zip_with (fun t p => radd (wte t)
                                  (emb (if is_first_iteration then 0%Z else p)))
                    ids positions)).
Proof.
  intros Hlen Hcase Hids Hpos. unfold GPT2Model.embed_tokens.
  cbn [sel_input_ids sel_position_ids].
  rewrite (embedding_inside wte) by done. rewrite bind_ok.
  cbn [squeeze0 lead cells].
  destruct is_first_iteration; cbn [negb].
  - unfold wpe_forward. rewrite (embedding_inside emb)
      by (simpl; by apply Forall_singleton).
    rewrite bind_ok. unfold add. simpl. unfold broadcast_cells.
    rewrite length_map. simpl.
    rewrite zip_with_ignore_r by done.
    destruct ids as [|a [|a' ids']]; simpl; [done..|].
    by rewrite map_map, !length_map.
  - destruct Hcase as [|Hlen2]; [done|].
    unfold get_fixed_embedding.
    destruct (Nat.ltb_spec 1 (length positions)); [|lia].
    rewrite lookup_rows_inside by done. rewrite !bind_ok.
    unfold add. simpl. unfold broadcast_cells.
    rewrite !length_map, Hlen, Nat.eqb_refl. simpl.
    rewrite zip_with_map2, length_zip_with. do 3 f_equal. lia.
Qed.

Lemma cells_interleave (conds chunks : list (list row)) :
  length conds = length chunks →
  concat (map cells (interleave (map matrix conds) (map matrix chunks)))
  = concat (zip_with app conds chunks).
Proof.
  revert chunks. induction conds as [|c conds IH]; intros [|k chunks] Hlen;
    simpl in *; [done..|].
  unfold interleave in *. simpl. rewrite IH by lia. by rewrite <- app_assoc.
Qed.

Lemma interleave_matrices (conds chunks : list (list row)) :
  Forall (fun t : tensor row => ∃ n, lead t = [n])
         (interleave (map matrix conds) (map matrix chunks)).
Proof.
  revert chunks. induction conds as [|c conds IH]; intros [|k chunks];
    unfold interleave in *; simpl; try constructor.
  - by eexists.
  - constructor; [by eexists|]. apply IH.
Qed.

(** The logits-only pass over a packed batch of N >= 1 requests: the
    output is, request after request, the request's conditioning followed
    by the rows of its audio tokens.  Whatever follows the batch in the
    packed tensors and in [seq_lens] is ignored. *)
Lemma packed_in_tables (reqs : list Request) (is_first_iteration : bool) :
  reqs ≠ [] → Forall (in_tables is_first_iteration) reqs →
  Forall (in_table wte) (concat (map audio_ids reqs))
  ∧ if is_first_iteration then in_table emb 0
    else Forall (in_table emb) (concat (map audio_positions reqs)).
Proof.
  intros Hne Hall. split.
  - clear Hne. induction Hall as [|r reqs [Hr _] _ IH]; simpl; [done|].
    by apply Forall_app.
  - destruct is_first_iteration.
    + destruct Hall as [|r reqs [_ Hr] _]; [done|exact Hr].
    + clear Hne. induction Hall as [|r reqs [_ Hr] _ IH]; simpl; [done|].
      by apply Forall_app.
Qed.

Lemma assemble_packed (reqs : list Request)
    (extra_ids extra_positions extra_lens : list Z) (npt : Z)
    (is_first_iteration : bool) :
  reqs ≠ [] → Forall well_packed reqs →
  is_first_iteration = true ∨ 2 ≤ length (concat (map audio_ids reqs)) →
  Forall (in_tables is_first_iteration) reqs →
  assemble (packed_ids reqs ++ extra_ids)
    (packed_positions reqs ++ extra_positions)
    (metadata_of reqs extra_lens npt)
    (Some (PerRequest (bundle reqs))) is_first_iteration true
  = ok (concat (map (fun r => cond r ++ audio_rows is_first_iteration r) reqs)).
Proof.
  intros Hne Hwf Hcase Htab.
  destruct (packed_in_tables reqs is_first_iteration Hne Htab) as [Hids Hpos].
  destruct (select_packed reqs extra_ids extra_positions extra_lens npt
              is_first_iteration Hne Hwf) as (starts & ends & _ & _ & _ & Hsel).
  assert (Hall : Forall2 (fun xs ys : list Z => length xs = length ys)
                   (map audio_ids reqs) (map audio_positions reqs)).
  { clear -Hwf. induction Hwf as [|r reqs (_ & _ & Hap) _ IH]; simpl;
      constructor; [done|apply IH]. }
  assert (Hlen : length (concat (map audio_ids reqs))
                 = length (concat (map audio_positions reqs))).
  { clear -Hall. induction Hall as [|xs ys xss yss Hxy _ IH]; simpl; [done|].
    rewrite !length_app. lia. }
  unfold GPT2Model.assemble. rewrite Hsel, bind_ok.
  rewrite embed_selected; [|done|by rewrite <- Hlen|done|done]. rewrite bind_ok.
  cbn [is_list andb sel_ids_for_unpacking].
  rewrite (zip_with_concat _ _ _ Hall).
  assert (Hchunks : zip_with (zip_with (fun t p => radd (wte t)
                       (emb (if is_first_iteration then 0%Z else p))))
                      (map audio_ids reqs) (map audio_positions reqs)
                    = map (audio_rows is_first_iteration) reqs).
  { clear. induction reqs as [|r reqs IH]; simpl; [done|]. by rewrite IH. }
  rewrite Hchunks.
  assert (Hsizes : map (fun r => Z.of_nat (length (audio_ids r))) reqs
                   = map (fun xs : list row => Z.of_nat (length xs))
                       (map (audio_rows is_first_iteration) reqs)).
  { rewrite map_map. apply map_ext_Forall.
    eapply Forall_impl; [exact Hwf|]. intros r (_ & _ & Hap). simpl.
    unfold audio_rows. rewrite length_zip_with. f_equal. lia. }
  rewrite Hsizes.
  assert (Htotal : length (concat (map audio_ids reqs))
                   = length (concat (map (audio_rows is_first_iteration) reqs))).
  { rewrite <- Hchunks, <- (zip_with_concat _ _ _ Hall), length_zip_with. lia. }
  rewrite Htotal, split0_concat, !bind_ok.
  rewrite orb_true_r. cbn [flatten_conditioning]. rewrite bind_ok.
  cbn [prepend_conditioning].
  assert (Hview : map view2d (bundle reqs) = map matrix (map cond reqs)).
  { unfold bundle. by rewrite !map_map. }
  rewrite Hview.
  destruct (cat0_matrices
              (interleave (map matrix (map cond reqs))
                 (map matrix (map (audio_rows is_first_iteration) reqs))))
    as [n ->].
  - destruct reqs; [done|discriminate].
  - apply interleave_matrices.
  - rewrite bind_ok. simpl. f_equal.
    rewrite cells_interleave by by rewrite !length_map.
    f_equal. clear. induction reqs as [|r reqs IH]; simpl; [done|]. by rewrite IH.
Qed.

Lemma offsets_loop_raise cs ss e (l : list nat) :
  foldl (Alignment.offsets_step cs ss) (raise e) l = raise e.
Proof. induction l as [|i l IH]; [done|]. exact IH. Qed.

(** The offset table fails with an index error when the bundle is empty
    or [seq_lens] has fewer entries than the bundle. *)
Lemma offset_table_index_error (cs ss : list Z) :
  cs = [] ∨ length ss < length cs →
  Alignment.offset_table cs ss = raise IndexError.
Proof.
  intros [->|Hlen]; [done|].
  destruct cs as [|c0 cs']; [simpl in Hlen; lia|].
  destruct ss as [|s0 ss']; [done|].
  change (Alignment.offset_table (c0 :: cs') (s0 :: ss'))
    with (foldl (Alignment.offsets_step (c0 :: cs') (s0 :: ss')) (ok ([c0], [s0]))
            (seq 1 (length (c0 :: cs') - 1))).
  set (m := length (s0 :: ss')).
  replace (length (c0 :: cs') - 1) with ((m - 1) + (length (c0 :: cs') - m))
    by (subst m; simpl in *; lia).
  rewrite seq_app, foldl_app.
  destruct (offsets_loop (c0 :: cs') (s0 :: ss') (m - 1) 1 [c0] [s0])
    as (starts & ends & -> & Htab).
  - lia.
  - subst m. simpl in *. lia.
  - subst m. simpl. lia.
  - split_and!; [done..| |].
    + intros i c Hi Hc. assert (i = 0) as -> by lia. simpl in *.
      f_equal. injection Hc as ->. lia.
    + intros i Hi. assert (i = 0) as -> by lia. simpl. f_equal. lia.
  - replace (1 + (m - 1)) with m in * by (subst m; simpl; lia).
    destruct (length (c0 :: cs') - m) as [|k] eqn:Hk; [subst m; simpl in *; lia|].
    change (seq m (S k)) with (m :: seq (S m) k).
    change (foldl ?f ?a (m :: ?l)) with (foldl f (f a m) l).
    assert (Alignment.offsets_step (c0 :: cs') (s0 :: ss') (ok (starts, ends)) m
            = raise IndexError) as ->; [|apply offsets_loop_raise].
    destruct Htab as (Hls & Hle & Hst & Hen).
    destruct (lookup_lt_is_Some_2 ends (m - 1)) as [pe Hpe];
      [subst m; simpl in *; lia|].
    destruct (lookup_lt_is_Some_2 (c0 :: cs') m) as [c Hc]; [lia|].
    unfold Alignment.offsets_step. rewrite bind_ok. simpl fst. simpl snd.
    rewrite (getitem_Some _ _ _ Hpe), bind_ok.
    rewrite (getitem_Some _ _ _ Hc), bind_ok.
    rewrite getitem_None; [done|]. apply lookup_ge_None. subst m. lia.
Qed.

Lemma assemble_index_error (embeds : list (tensor row))
    (input_ids position_ids : list Z) (attn_metadata : AttentionMetadata)
    (is_first_iteration : bool) :
  embeds = [] ∨ length (seq_lens attn_metadata) < length embeds →
  assemble input_ids position_ids attn_metadata (Some (PerRequest embeds))
    is_first_iteration true
  = raise IndexError.
Proof.
  intros Hshort. unfold GPT2Model.assemble, GPT2Model.select_tokens.
  rewrite andb_false_r. cbn [negb].
  rewrite offset_table_index_error; [done|].
  destruct Hshort as [->|Hlen]; [by left|right]. by rewrite length_map.
Qed.

(** The pass reads the packed tensors and [seq_lens] up to the bundle's
    requests only: what follows them changes nothing, whether the call
    returns or fails. *)
Lemma assemble_ignores_surplus (reqs : list Request)
    (extra_ids extra_positions extra_lens : list Z) (npt : Z)
    (is_first_iteration : bool) :
  reqs ≠ [] → Forall well_packed reqs →
  assemble (packed_ids reqs ++ extra_ids)
    (packed_positions reqs ++ extra_positions)
    (metadata_of reqs extra_lens npt)
    (Some (PerRequest (bundle reqs))) is_first_iteration true
  = assemble (packed_ids reqs) (packed_positions reqs)
      (metadata_of reqs [] npt)
      (Some (PerRequest (bundle reqs))) is_first_iteration true.
Proof.
  intros Hne Hwf.
  destruct (select_packed reqs extra_ids extra_positions extra_lens npt
              is_first_iteration Hne Hwf) as (? & ? & _ & _ & _ & Hsel).
  destruct (select_packed reqs [] [] [] npt is_first_iteration Hne Hwf)
    as (? & ? & _ & _ & _ & Hsel').
  rewrite !app_nil_r in Hsel'.
  unfold GPT2Model.assemble. rewrite Hsel, Hsel'. reflexivity.
Qed.



(** *** The logits-only pass with a single conditioning tensor *)

Lemma select_single (t : tensor row) (input_ids position_ids : list Z)
    (attn_metadata : AttentionMetadata) (is_first_iteration : bool) offset :
  shape1 embed_dim t = ok offset →
  select_tokens input_ids position_ids attn_metadata (Some (Single t))
    is_first_iteration true
  = ok {| sel_input_ids :=
            Tensor [1; length (drop offset input_ids)] (drop offset input_ids);
          sel_position_ids := drop offset position_ids;
          sel_ids_for_unpacking := [] |}.
Proof.
  intros Hoff. unfold GPT2Model.select_tokens. rewrite andb_false_r. cbn [negb].
  rewrite Hoff, bind_ok. by rewrite !py_slice_from_drop.
Qed.

(** X18.  With a single conditioning tensor the logits-only pass drops
    the first [input_embeds.shape[1]] elements of the packed tensors and
    keeps the rest as audio tokens; for a tensor of shape (1, L, D), one
    request stacked into a batch, that offset is the tensor's row count
    L. *)
Theorem logits_only_single_offset (t : tensor row) (input_ids position_ids : list Z)
    (attn_metadata : AttentionMetadata) (is_first_iteration : bool) :
  (∀ offset, shape1 embed_dim t = ok offset →
     select_tokens input_ids position_ids attn_metadata (Some (Single t))
       is_first_iteration true
     = ok {| sel_input_ids :=
               Tensor [1; length (drop offset input_ids)] (drop offset input_ids);
             sel_position_ids := drop offset position_ids;
             sel_ids_for_unpacking := [] |}
     ∧ take offset input_ids ++ drop offset input_ids = input_ids)
  ∧ (∀ L, lead t = [1; L] → well_shaped t →
       shape1 embed_dim t = ok L ∧ length (cells (view2d t)) = L).
Proof.
  split.
  - intros offset Hoff. split; [by apply select_single|apply take_drop].
  - intros L Hlead Hwf. unfold shape1, shape, well_shaped in *.
    rewrite Hlead in *. simpl in *. split; [done|]. lia.
Qed.


End AssemblerFacts.

(** ** From the assembled hidden states to the logits *)

Section PathFacts.
Import Torch GPT2Model XttsGPT.

Context {row logits : Type}.
Variable embed_dim : nat.
Variable wte : table row.
Variable emb : table row.
Variable radd : row → row → row.
Variable h : list (list row → list row).
Variable ln_f : list row → list row.
Variable final_norm : list row → list row.
Variable logits_processor : list row → logits.

Lemma blocks_are_not_normalizations (l : list nat) :
  filter (fun c : call row => is_normalization c = true) (map CallBlock l) = [].
Proof.
  induction l as [|i l IH]; [done|]. simpl. rewrite filter_cons.
  case_decide as Hd; [discriminate|exact IH].
Qed.

(** C7 (as amended).  On the last pipeline stage two normalization layers
    are applied on the way to the logits, each once and in this order: the
    driver's [ln_f] on the output of the blocks, then the decode head's own
    [final_norm] on what the driver returned; the collector, when there is
    one, and the projection both receive the result of the second. *)
Theorem decode_applies_both_norms (pp : PPGroup) (input_ids positions : list Z)
    (attn_metadata : AttentionMetadata)
    (intermediate_tensors : option (list row))
    (cond_latents : option (Conditioning row))
    (is_logits_only_mode : Classifier.flag) (has_collector : bool)
    (assembled : list row) :
  is_last_rank pp = true →
  stage_input embed_dim wte emb radd pp input_ids positions attn_metadata
    intermediate_tensors cond_latents
    (Classifier.is_first_iteration input_ids)
    (Classifier.check_is_logits_only_mode is_logits_only_mode)
  = ok assembled →
  ∃ trace,
    decode embed_dim wte emb radd h ln_f final_norm logits_processor pp
      input_ids positions attn_metadata intermediate_tensors cond_latents
      is_logits_only_mode has_collector
    = ok (Some (logits_processor (final_norm (ln_f (run_layers h assembled)))),
          trace)
    ∧ filter (fun c => is_normalization c = true) trace
      = [CallLnF (run_layers h assembled);
         CallFinalNorm (ln_f (run_layers h assembled))]
    ∧ normalizations trace = 2
    ∧ (has_collector = true →
         CallHiddenStateCollector (final_norm (ln_f (run_layers h assembled)))
         ∈ trace)
    ∧ last trace
      = Some (CallLogitsProcessor (final_norm (ln_f (run_layers h assembled)))).
Proof.
  intros Hlast Hin.
  unfold decode, forward, GPT2Model.forward. rewrite Hin, bind_ok, Hlast.
  cbn [negb]. rewrite bind_ok. cbn [fst snd compute_logits].
  eexists. split; [reflexivity|].
  assert (Hfilter :
    filter (fun c : call row => is_normalization c = true)
      ((map CallBlock (seq 0 (length h)) ++ [CallLnF (run_layers h assembled)])
       ++ [CallFinalNorm (ln_f (run_layers h assembled))]
       ++ (if has_collector
           then [CallHiddenStateCollector
                   (final_norm (ln_f (run_layers h assembled)))]
           else [])
       ++ [CallLogitsProcessor (final_norm (ln_f (run_layers h assembled)))])
    = [CallLnF (run_layers h assembled);
       CallFinalNorm (ln_f (run_layers h assembled))]).
  { rewrite !filter_app, blocks_are_not_normalizations.
    destruct has_collector; reflexivity. }
  split_and!.
  - exact Hfilter.
  - unfold normalizations. by rewrite Hfilter.
  - intros ->. rewrite !elem_of_app. right. right. left. constructor.
  - rewrite !app_assoc. apply last_snoc.
Qed.

(** X2.  The hand-off between pipeline stages.  A stage that is not the first
    starts from the received hidden states, whatever tokens, positions and
    conditioning the call carries, and fails when none were received; a
    stage that is not the last returns the output of its blocks for
    hand-off, without any normalization. *)
Theorem pipeline_hand_off (pp : PPGroup) (input_ids positions : list Z)
    (attn_metadata : AttentionMetadata)
    (cond_latents : option (Conditioning row))
    (is_first_iteration is_logits_only_mode : bool) (received : list row) :
  is_first_rank pp = false →
  GPT2Model.forward embed_dim wte emb radd h ln_f pp input_ids positions
    attn_metadata None cond_latents is_first_iteration is_logits_only_mode
  = raise AssertionError
  ∧ (is_last_rank pp = false →
       GPT2Model.forward embed_dim wte emb radd h ln_f pp input_ids positions
         attn_metadata (Some received) cond_latents
         is_first_iteration is_logits_only_mode
       = ok (IntermediateTensors (run_layers h received),
             map CallBlock (seq 0 (length h)))
       ∧ normalizations (map (@CallBlock row) (seq 0 (length h))) = 0)
  ∧ (is_last_rank pp = true →
       GPT2Model.forward embed_dim wte emb radd h ln_f pp input_ids positions
         attn_metadata (Some received) cond_latents
         is_first_iteration is_logits_only_mode
       = ok (HiddenStates (ln_f (run_layers h received)),
             map CallBlock (seq 0 (length h))
             ++ [CallLnF (run_layers h received)])).
Proof.
  intros Hfirst. unfold GPT2Model.forward, stage_input. rewrite Hfirst.
  split_and!.
  - reflexivity.
  - intros ->. split; [reflexivity|].
    unfold normalizations. by rewrite blocks_are_not_normalizations.
  - intros ->. reflexivity.
Qed.

End PathFacts.

(** ** The properties on the small model *)

Section Examples.
Import Torch GPT2Model Spec Example.

Lemma ex_requests_well_packed : Forall well_packed ex_requests.
Proof. repeat constructor. Qed.

Lemma ex_requests_in_tables :
  Forall (in_tables ex_wte ex_emb false) ex_requests.
Proof. repeat constructor; unfold in_table; simpl; lia. Qed.


(** C2, at the call where the code departs from it: one request with two
    conditioning rows and a single audio token, 7, which is no sentinel.
    The offsets select the token and its position, as C2 says, but the
    concatenation is refused, the single position embedding having made
    the hidden states three-dimensional, where C2 expects the conditioning
    followed by the token's row. *)
Lemma logits_only_one_audio_token_raises :
  Classifier.is_first_iteration [1; 1; 7]%Z = false
  ∧ Alignment.offset_table [2]%Z [3]%Z = ok ([2]%Z, [3]%Z)
  ∧ Alignment.slices [1; 1; 7]%Z [2]%Z [3]%Z = [[7]]%Z
  ∧ embed_tokens ex_wte ex_emb ex_radd false
      {| sel_input_ids := Tensor [1; 1] [7]%Z;
         sel_position_ids := [2]%Z;
         sel_ids_for_unpacking := [1]%Z |}
    = ok (Tensor [1; 1] [[7; 2]%Z])
  ∧ ex_assemble [1; 1; 7]%Z [0; 1; 2]%Z
      {| seq_lens := [3]%Z; num_prefill_tokens := 3 |}
      (Some (PerRequest [matrix [ex_c; ex_c]])) false true
    = raise RuntimeError.
Proof. by vm_compute. Qed.



(** C5, at the call where the code departs from it: a single
    conditioning tensor of shape (3, 2), three rows of the hidden
    dimension 2, over a packed tensor of three filler ids and the audio
    tokens 7 and 8.  The tensor has three rows, and C5 has the pass drop
    the three elements before index 3 and keep [7; 8]; the pass drops 2
    elements, the size of the tensor's second dimension, and keeps a
    filler id among the audio tokens. *)
Lemma logits_only_single_matrix_offset :
  shape 2 (matrix [ex_c; ex_c; ex_c]) = [3; 2]
  ∧ length (cells (view2d (matrix [ex_c; ex_c; ex_c]))) = 3
  ∧ select_tokens 2 [1; 1; 1; 7; 8]%Z [0; 1; 2; 3; 4]%Z
      {| seq_lens := [5]%Z; num_prefill_tokens := 5 |}
      (Some (Single (matrix [ex_c; ex_c; ex_c]))) false true
    = ok {| sel_input_ids := Tensor [1; 3] [1; 7; 8]%Z;
            sel_position_ids := [2; 3; 4]%Z;
            sel_ids_for_unpacking := [] |}
  ∧ drop 3 [1; 1; 1; 7; 8]%Z = [7; 8]%Z.
Proof. by vm_compute. Qed.

Lemma logits_only_single_offset_witness :
  select_tokens 2 [1; 1; 1; 7; 8]%Z [0; 1; 2; 3; 4]%Z
    {| seq_lens := [5]%Z; num_prefill_tokens := 5 |}
    (Some (Single (Tensor [1; 3] [ex_c; ex_c; ex_c]))) false true
  = ok {| sel_input_ids := Tensor [1; 2] [7; 8]%Z;
          sel_position_ids := [3; 4]%Z;
          sel_ids_for_unpacking := [] |}
  ∧ length (cells (view2d (Tensor [1; 3] [ex_c; ex_c; ex_c]))) = 3.
Proof.
  destruct (logits_only_single_offset 2 (Tensor [1; 3] [ex_c; ex_c; ex_c])
              [1; 1; 1; 7; 8]%Z [0; 1; 2; 3; 4]%Z
              {| seq_lens := [5]%Z; num_prefill_tokens := 5 |} false)
    as [Hsel Hrows].
  destruct (Hrows 3) as [Hoff Hlen]; [reflexivity..|].
  destruct (Hsel 3 Hoff) as [Hselected _].
  split; [exact Hselected|exact Hlen].
Defined.

Lemma priming_single_trailing_row_witness :
  (∃ out,
     ex_assemble [1; 1; 1024]%Z [0; 1; 2]%Z
       {| seq_lens := [3]%Z; num_prefill_tokens := 3 |}
       (Some (Single (matrix [ex_c; ex_c; [5; 5]%Z]))) true false
     = ok out
     ∧ out = [ex_c; ex_c; [1024; 0]%Z])
  ∧ (∃ out,
       ex_assemble [1; 1; 1024]%Z [0; 1; 2]%Z
         {| seq_lens := [3]%Z; num_prefill_tokens := 3 |}
         (Some (Single (matrix [ex_c; ex_c]))) true false
       = ok out
       ∧ out = [ex_c; ex_c; [1024; 0]%Z]).
Proof.
  split.
  - destruct (priming_single_trailing_row 2 ex_wte ex_emb ex_radd
                [1; 1; 1024]%Z [0; 1; 2]%Z
                {| seq_lens := [3]%Z; num_prefill_tokens := 3 |}
                (matrix [ex_c; ex_c; [5; 5]%Z]) 1024%Z)
      as (_ & out & Hout & Hdrop & _);
      [reflexivity|unfold in_table; simpl; lia..|].
    exists out. split; [exact Hout|].
    destruct Hdrop as [Hdropped _]; [reflexivity|]. exact Hdropped.
  - destruct (priming_single_trailing_row 2 ex_wte ex_emb ex_radd
                [1; 1; 1024]%Z [0; 1; 2]%Z
                {| seq_lens := [3]%Z; num_prefill_tokens := 3 |}
                (matrix [ex_c; ex_c]) 1024%Z)
      as (_ & out & Hout & _ & Hkeep);
      [reflexivity|unfold in_table; simpl; lia..|].
    exists out. split; [exact Hout|].
    destruct Hkeep as [Hkept _]; [simpl; lia|]. exact Hkept.
Defined.

Lemma priming_list_interleaves_witness :
  ex_assemble [1; 1; 1; 1024]%Z [0; 1; 2; 3]%Z
    {| seq_lens := [4]%Z; num_prefill_tokens := 4 |}
    (Some (PerRequest [matrix [ex_c; ex_c]; matrix [[5; 5]%Z]])) true false
  = ok [ex_c; ex_c; [1024; 0]; [5; 5]; [1024; 0]]%Z.
Proof.
  apply (priming_list_interleaves 2 ex_wte ex_emb ex_radd
           [1; 1; 1; 1024]%Z [0; 1; 2; 3]%Z
           {| seq_lens := [4]%Z; num_prefill_tokens := 4 |}
           [matrix [ex_c; ex_c]; matrix [[5; 5]%Z]] 1024%Z).
  - discriminate.
  - reflexivity.
  - unfold in_table. simpl. lia.
  - unfold in_table. simpl. lia.
Defined.

(** The counterexample to C7: an incremental step for token 5 at position
    3.  The hidden states reach the projection normalized twice. *)
Lemma decode_normalizes_twice :
  ex_decode [5]%Z [3]%Z {| seq_lens := [9]%Z; num_prefill_tokens := 0 |}
    None None (Classifier.FlagBool false) false
  = ok (Some [[21; 17]%Z],
        [CallBlock 0; CallLnF [[10; 6]%Z]; CallFinalNorm [[11; 7]%Z];
         CallLogitsProcessor [[21; 17]%Z]])
  ∧ normalizations
      [CallBlock 0; CallLnF [[10; 6]%Z]; CallFinalNorm [[11; 7]%Z];
       CallLogitsProcessor [[21; 17]%Z]] = 2.
Proof. by vm_compute. Qed.

Lemma decode_applies_both_norms_witness :
  ∃ trace,
    ex_decode [5]%Z [3]%Z {| seq_lens := [9]%Z; num_prefill_tokens := 0 |}
      None None (Classifier.FlagBool false) true
    = ok (Some [[21; 17]%Z], trace)
    ∧ normalizations trace = 2.
Proof.
  destruct (decode_applies_both_norms 2 ex_wte ex_emb ex_radd [ex_block]
              ex_ln_f ex_final_norm (fun hs : list ex_row => hs)
              ex_single_stage [5]%Z [3]%Z
              {| seq_lens := [9]%Z; num_prefill_tokens := 0 |}
              None None (Classifier.FlagBool false) true [[5; 3]%Z])
    as (trace & Hdecode & _ & Hcount & _).
  - reflexivity.
  - reflexivity.
  - exists trace. split; [exact Hdecode|exact Hcount].
Defined.


Lemma pipeline_hand_off_witness :
  GPT2Model.forward 2 ex_wte ex_emb ex_radd [ex_block] ex_ln_f
    {| is_first_rank := false; is_last_rank := false |}
    [5]%Z [3]%Z {| seq_lens := [9]%Z; num_prefill_tokens := 0 |}
    (Some [[5; 3]%Z]) None false false
  = ok (IntermediateTensors [[10; 6]%Z], [CallBlock 0]).
Proof.
  destruct (pipeline_hand_off 2 ex_wte ex_emb ex_radd [ex_block] ex_ln_f
              {| is_first_rank := false; is_last_rank := false |}
              [5]%Z [3]%Z {| seq_lens := [9]%Z; num_prefill_tokens := 0 |}
              None false false [[5; 3]%Z]) as (_ & Hhand & _).
  - reflexivity.
  - destruct Hhand as [Hout _]; [reflexivity|]. exact Hout.
Defined.

End Examples.

(** * Further properties of the code *)

(** ** The start-token indices and the priming layout *)

Section StartIndexFacts.
Import Torch GPT2Model Inputs Layout Spec.

Context {row : Type}.
Variable embed_dim : nat.
Variable wte : table row.
Variable emb : table row.
Variable radd : row → row → row.

Notation assemble := (assemble embed_dim wte emb radd).
Notation start_row := (start_row wte emb radd).

Lemma start_indices_fold (conds : list (list row)) : ∀ (acc : list Z) (base : Z),
  (foldl (start_index_step embed_dim) (acc, base) (map matrix conds)).1
  = acc ++ start_rows_from base conds.
Proof.
  induction conds as [|c conds IH]; intros acc base; simpl.
  - by rewrite app_nil_r.
  - unfold start_index_step at 2. simpl. rewrite IH, <- app_assoc. done.
Qed.

Lemma start_indices_closed (conds : list (list row)) :
  calculate_start_token_indices embed_dim (map matrix conds)
  = start_rows_from 0 conds.
Proof. unfold calculate_start_token_indices. by rewrite start_indices_fold. Qed.

Lemma start_rows_from_length (conds : list (list row)) base :
  length (start_rows_from base conds) = length conds.
Proof.
  revert base. induction conds as [|c conds IH]; intros base; simpl; [done|].
  by rewrite IH.
Qed.

Lemma start_rows_from_lookup (conds : list (list row)) : ∀ base i idx,
  start_rows_from base conds !! i = Some idx →
  idx = (base + sumZ (take (S i) (map (fun c => Z.of_nat (length c)) conds))
         + Z.of_nat i)%Z.
Proof.
  induction conds as [|c conds IH]; intros base i idx Hi; [done|].
  destruct i as [|i]; simpl in *.
  - injection Hi as <-. lia.
  - apply IH in Hi. rewrite Hi. lia.
Qed.

Lemma start_rows_from_ge (conds : list (list row)) : ∀ base idx,
  idx ∈ start_rows_from base conds → (base ≤ idx)%Z.
Proof.
  induction conds as [|c conds IH]; intros base idx Hin; simpl in *.
  - by apply elem_of_nil in Hin.
  - apply elem_of_cons in Hin as [->|Hin]; [lia|]. apply IH in Hin. lia.
Qed.

(** The rows of the interleaved sequence: a start-token row at each index
    of [start_rows_from], a conditioning row everywhere else. *)
Lemma interleaved_rows (h : row) (conds : list (list row)) : ∀ base k r,
  concat (map (fun c => c ++ [h]) conds) !! k = Some r →
  ((base + Z.of_nat k)%Z ∈ start_rows_from base conds ∧ r = h)
  ∨ (((base + Z.of_nat k)%Z ∉ start_rows_from base conds)
     ∧ ∃ c, c ∈ conds ∧ r ∈ c).
Proof.
  induction conds as [|c conds IH]; intros base k r Hk; [done|].
  simpl in Hk. rewrite <- app_assoc in Hk. simpl.
  destruct (decide (k < length c)) as [Hlt|Hge].
  - rewrite lookup_app_l in Hk by done. right. split.
    + intros Hin. apply elem_of_cons in Hin as [Heq|Hin]; [lia|].
      apply start_rows_from_ge in Hin. lia.
    + exists c. split; [by left|]. by eapply list_elem_of_lookup_2.
  - rewrite lookup_app_r in Hk by lia.
    destruct (k - length c) as [|k'] eqn:Hk'; simpl in Hk.
    + injection Hk as <-. left. split; [|done].
      apply elem_of_cons. left. lia.
    + destruct (IH (base + Z.of_nat (length c) + 1)%Z k' r Hk)
        as [[Hin ->]|[Hnot (c' & Hc' & Hr)]].
      * left. split; [|done]. apply elem_of_cons. right.
        by replace (base + Z.of_nat k)%Z
          with (base + Z.of_nat (length c) + 1 + Z.of_nat k')%Z by lia.
      * right. split.
        -- intros Hin. apply elem_of_cons in Hin as [Heq|Hin]; [lia|].
           apply Hnot.
           by replace (base + Z.of_nat (length c) + 1 + Z.of_nat k')%Z
             with (base + Z.of_nat k)%Z by lia.
        -- exists c'. split; [by right|done].
Qed.

Lemma interleaved_start_rows (h : row) (conds : list (list row)) : ∀ base idx,
  idx ∈ start_rows_from base conds →
  concat (map (fun c => c ++ [h]) conds) !! Z.to_nat (idx - base) = Some h.
Proof.
  induction conds as [|c conds IH]; intros base idx Hin; simpl in *.
  - by apply elem_of_nil in Hin.
  - rewrite <- app_assoc. apply elem_of_cons in Hin as [->|Hin].
    + replace (Z.to_nat (base + Z.of_nat (length c) - base)) with (length c)
        by lia.
      rewrite lookup_app_r by lia. by rewrite Nat.sub_diag.
    + pose proof (start_rows_from_ge _ _ _ Hin) as Hge.
      rewrite lookup_app_r by lia.
      replace (Z.to_nat (idx - base) - length c)
        with (S (Z.to_nat (idx - (base + Z.of_nat (length c) + 1)))) by lia.
      simpl. by apply IH.
Qed.

Lemma interleaved_length (h : row) (conds : list (list row)) :
  Z.of_nat (length (concat (map (fun c => c ++ [h]) conds)))
  = (sumZ (map (fun c => Z.of_nat (length c)) conds) + Z.of_nat (length conds))%Z.
Proof.
  induction conds as [|c conds IH]; simpl; [done|].
  rewrite !length_app. simpl. lia.
Qed.

(** The priming pass over a list of conditioning tensors, in closed
    form. *)
Lemma priming_list_output (input_ids position_ids : list Z)
    (attn_metadata : AttentionMetadata) (embeds : list (tensor row))
    (last_id : Z) :
  embeds ≠ [] → last input_ids = Some last_id →
  in_table wte last_id → in_table emb 0 →
  assemble input_ids position_ids attn_metadata (Some (PerRequest embeds))
    true false
  = ok (concat (map (fun cond => cells cond ++ [start_row last_id]) embeds)).
Proof.
  intros Hne Hlast Hid Hpos.
  destruct (priming_hidden embed_dim wte emb radd input_ids position_ids
              attn_metadata (Some (PerRequest embeds)) last_id Hlast Hid Hpos)
    as (sel & Hsel & Hemb).
  unfold GPT2Model.assemble. rewrite Hsel, bind_ok, Hemb, bind_ok.
  cbn [is_list andb orb flatten_conditioning bind ok prepend_conditioning].
  rewrite length_map.
  destruct (cat0_matrices
              (interleave (map view2d embeds)
                 (replicate (length embeds)
                    (Tensor [1] [start_row last_id])))) as [n ->].
  - destruct embeds; [done|discriminate].
  - clear. induction embeds as [|e embeds IH]; simpl; [constructor|].
    repeat constructor; eauto.
  - simpl. f_equal. clear. induction embeds as [|e embeds IH]; [done|].
    simpl. rewrite <- IH. unfold interleave. simpl. by rewrite <- app_assoc.
Qed.

(** X4.  [_calculate_start_token_indices] on N conditioning matrices
    returns N indices, the i-th being the total length of the first i+1
    matrices plus i, and these are exactly the rows of the priming output
    over the same list that hold the start token: the output has the
    start-token row at every returned index and a conditioning row at
    every other.  The token the priming pass keeps and position 0 are
    inside the embedding tables. *)
Theorem start_indices_mark_start_rows (conds : list (list row))
    (input_ids position_ids : list Z) (attn_metadata : AttentionMetadata)
    (last_id : Z) :
  conds ≠ [] → last input_ids = Some last_id →
  in_table wte last_id → in_table emb 0 →
  let indices := calculate_start_token_indices embed_dim (map matrix conds) in
  let lens := map (fun c => Z.of_nat (length c)) conds in
  length indices = length conds
  ∧ (∀ i idx, indices !! i = Some idx →
       idx = (sumZ (take (S i) lens) + Z.of_nat i)%Z)
  ∧ ∃ out,
      assemble input_ids position_ids attn_metadata
        (Some (PerRequest (map matrix conds))) true false = ok out
      ∧ Z.of_nat (length out) = (sumZ lens + Z.of_nat (length conds))%Z
      ∧ (∀ idx, idx ∈ indices → out !! Z.to_nat idx = Some (start_row last_id))
      ∧ (∀ k r, out !! k = Some r → Z.of_nat k ∉ indices →
           ∃ c, c ∈ conds ∧ r ∈ c).
Proof.
  intros Hne Hlast Hid Hpos indices lens. subst indices lens.
  rewrite start_indices_closed. split_and!.
  - apply start_rows_from_length.
  - intros i idx Hi. apply start_rows_from_lookup in Hi. lia.
  - exists (concat (map (fun c => c ++ [start_row last_id]) conds)).
    split_and!.
    + rewrite (priming_list_output _ _ _ _ last_id);
        [|by destruct conds|done..].
      by rewrite map_map.
    + apply interleaved_length.
    + intros idx Hin.
      pose proof (interleaved_start_rows (start_row last_id) conds 0 idx Hin)
        as Hrow.
      by rewrite Z.sub_0_r in Hrow.
    + intros k r Hk Hnot.
      destruct (interleaved_rows (start_row last_id) conds 0 k r Hk)
        as [[Hin _]|[_ Hc]]; [|done].
      by rewrite Z.add_0_l in Hin.
Qed.

End StartIndexFacts.

(** ** The request side: profiling data, mapper and processor *)

Section RequestFacts.
Import Torch GPT2Model Inputs Spec.

Context {row : Type}.
Variable hidden_size : nat.
Variable zero_row : row.
Variable start_audio_token : Z.

Notation input_processor_for_xtts2_gpt :=
  (input_processor_for_xtts2_gpt hidden_size start_audio_token).
Notation dummy_conditioning_for_xtts := (dummy_conditioning_for_xtts zero_row).
Notation dummy_data_for_xtts := (dummy_data_for_xtts zero_row).
Notation AudioData := (@AudioData row).

Lemma py_repeat_singleton {A} (a : A) n :
  py_repeat [a] n = replicate (Z.to_nat n) a.
Proof.
  unfold py_repeat. induction (Z.to_nat n) as [|k IH]; simpl; [done|].
  by rewrite IH.
Qed.

Lemma py_repeat_length {A} (l : list A) n :
  length (py_repeat l n) = Z.to_nat n * length l.
Proof.
  unfold py_repeat. induction (Z.to_nat n) as [|k IH]; simpl; [done|].
  rewrite length_app, IH. lia.
Qed.

Lemma py_repeat_Forall {A} (P : A → Prop) (l : list A) n :
  Forall P l → Forall P (py_repeat l n).
Proof.
  intros Hl. unfold py_repeat.
  induction (Z.to_nat n) as [|k IH]; simpl; [constructor|].
  by apply Forall_app.
Qed.

Lemma Forall_eq_replicate {A} (a : A) (l : list A) :
  Forall (eq a) l → l = replicate (length l) a.
Proof. induction 1 as [|x l <- _ IH]; simpl; [done|]. by rewrite <- IH. Qed.

Lemma fillers_are_sentinels (l : list Z) :
  Forall (eq 1%Z) l → forallb Classifier.isin_sentinels l = true.
Proof. induction 1 as [|x l <- _ IH]; simpl; [done|exact IH]. Qed.

Lemma dummy_seq_data_fillers (seq_len audio_count : Z) :
  Forall (eq 1%Z) (dummy_seq_data_for_xtts seq_len audio_count).
Proof.
  unfold dummy_seq_data_for_xtts. apply Forall_app. split.
  - apply py_repeat_Forall, Forall_app. split.
    + apply py_repeat_Forall. by repeat constructor.
    + by repeat constructor.
  - apply py_repeat_Forall. by repeat constructor.
Qed.

Lemma dummy_seq_data_length (seq_len audio_count : Z) :
  Z.of_nat (length (dummy_seq_data_for_xtts seq_len audio_count))
  = Z.max (33 * Z.max 0 audio_count) seq_len.
Proof.
  unfold dummy_seq_data_for_xtts.
  rewrite length_app, !py_repeat_length, length_app, py_repeat_length. simpl.
  lia.
Qed.

(** X5.  The profiling sequence holds the filler id 1 only; it has
    [seq_len] tokens, or 33 per audio item when that is more (it is never
    cut to [seq_len]); and with at least two tokens it is taken for the
    first iteration, so with the flag the profiling conditioning carries
    the call is a priming pass. *)
Theorem dummy_seq_data_is_priming (seq_len audio_count : Z) :
  let ids := dummy_seq_data_for_xtts seq_len audio_count in
  ids = replicate (length ids) Classifier.PAD_FILLER_ID
  ∧ Z.of_nat (length ids) = Z.max (33 * Z.max 0 audio_count) seq_len
  ∧ Classifier.is_first_iteration ids = bool_decide (1 < length ids)
  ∧ Classifier.classify ids (Classifier.FlagBool false)
    = if bool_decide (2 ≤ seq_len ∨ 1 ≤ audio_count)%Z
      then Classifier.PRIMING else Classifier.INCREMENTAL.
Proof.
  intros ids.
  pose proof (dummy_seq_data_fillers seq_len audio_count) as Hall.
  pose proof (dummy_seq_data_length seq_len audio_count) as Hlen.
  fold ids in Hall, Hlen.
  assert (Hfirst : Classifier.is_first_iteration ids
                   = bool_decide (1 < length ids)).
  { unfold Classifier.is_first_iteration.
    rewrite (fillers_are_sentinels _ Hall), andb_true_r.
    destruct (Nat.ltb_spec 1 (length ids)).
    - by rewrite bool_decide_eq_true_2.
    - rewrite bool_decide_eq_false_2; [done|lia]. }
  split_and!; [by apply Forall_eq_replicate|done|done|].
  unfold Classifier.classify, Classifier.phase_of. rewrite Hfirst. simpl.
  rewrite andb_true_r.
  destruct (decide (2 ≤ seq_len ∨ 1 ≤ audio_count)%Z) as [Hbig|Hsmall].
  - rewrite (bool_decide_eq_true_2 _ Hbig), bool_decide_eq_true_2; [done|lia].
  - rewrite (bool_decide_eq_false_2 _ Hsmall), bool_decide_eq_false_2; [done|lia].
Qed.

(** X6.  What the input processor returns is always accepted by the input
    mapper: a successful call had the dictionary under ["audio"] with a
    tensor as [embeds], hands the multi-modal data on unchanged, and the
    mapper maps that dictionary to the same tensor and flag.  The new
    prompt is one filler id per row of the tensor ([embeds.shape[0]]),
    followed by the start-audio token when the flag is off and by the
    caller's prompt when it is on. *)
Theorem processed_inputs_pass_the_mapper (inputs : DecoderOnlyInputs)
    (out : TokenInputs) :
  input_processor_for_xtts2_gpt inputs = inr out →
  ∃ (d : AudioData) (audio : tensor row) (rest : list Z),
    multi_modal_data inputs = Some (out_multi_modal_data out)
    ∧ out_multi_modal_data out !! "audio" = Some d
    ∧ embeds d = Some (VTensor audio)
    ∧ input_mapper_for_xtts (DataDict d)
      = inr {| cond_latents := Some (VTensor audio);
               mm_is_logits_only_mode := default false (is_logits_only_mode d) |}
    ∧ out_prompt_token_ids out
      = replicate (shape0 hidden_size audio) Classifier.PAD_FILLER_ID ++ rest
    ∧ (default false (is_logits_only_mode d) = false →
         rest = [start_audio_token])
    ∧ (default false (is_logits_only_mode d) = true →
         prompt_token_ids inputs = Some rest).
Proof.
  unfold Inputs.input_processor_for_xtts2_gpt. intros Hout.
  destruct (multi_modal_data inputs) as [mm|] eqn:Hmm; [|done].
  destruct (mm !! "audio") as [d|] eqn:Hd; [|done].
  destruct (embeds d) as [[audio|items|]|] eqn:He; try done.
  rewrite py_repeat_singleton, Nat2Z.id in Hout.
  destruct (default false (is_logits_only_mode d)) eqn:Hflag; simpl in Hout.
  - destruct (prompt_token_ids inputs) as [ids|] eqn:Hp; [|done].
    injection Hout as <-. exists d, audio, ids. simpl.
    split_and!; try done; try congruence.
    unfold input_mapper_for_xtts. rewrite He. simpl. by rewrite Hflag.
  - injection Hout as <-. exists d, audio, [start_audio_token]. simpl.
    split_and!; try done; try congruence.
    unfold input_mapper_for_xtts. rewrite He. simpl. by rewrite Hflag.
Qed.

(** X7.  A request whose [embeds] is a tensor with L rows and whose flag
    is off or absent is processed whatever its prompt (even none): the new
    prompt is L filler ids and the start-audio token, and the model takes
    it for a priming pass exactly when L >= 1 and the configured
    start-audio token is one of the two sentinel ids 1 and 1024. *)
Theorem processed_prompt_phase (mm : gmap string AudioData) (d : AudioData)
    (audio : tensor row) (prompt : option (list Z)) :
  mm !! "audio" = Some d → embeds d = Some (VTensor audio) →
  default false (is_logits_only_mode d) = false →
  ∃ out,
    input_processor_for_xtts2_gpt
      {| multi_modal_data := Some mm; prompt_token_ids := prompt |} = inr out
    ∧ out_prompt_token_ids out
      = replicate (shape0 hidden_size audio) 1%Z ++ [start_audio_token]
    ∧ out_multi_modal_data out = mm
    ∧ (Classifier.classify (out_prompt_token_ids out) (Classifier.FlagBool false)
       = Classifier.PRIMING
       ↔ 1 ≤ shape0 hidden_size audio
         ∧ (start_audio_token = 1 ∨ start_audio_token = 1024)%Z).
Proof.
  intros Hd He Hflag.
  unfold Inputs.input_processor_for_xtts2_gpt. simpl.
  rewrite Hd, He, Hflag, py_repeat_singleton, Nat2Z.id. simpl.
  eexists. split_and!; try reflexivity. simpl.
  unfold Classifier.classify, Classifier.phase_of,
    Classifier.is_first_iteration. simpl. rewrite andb_true_r.
  rewrite length_app, length_replicate, forallb_app. simpl.
  rewrite andb_true_r.
  assert (Hfill : forallb Classifier.isin_sentinels
                    (replicate (shape0 hidden_size audio) 1%Z) = true).
  { apply fillers_are_sentinels, Forall_replicate. done. }
  rewrite Hfill. simpl.
  unfold Classifier.isin_sentinels, Classifier.PAD_FILLER_ID,
    Classifier.START_AUDIO_TOKEN_ID.
  destruct (Nat.ltb_spec 1 (shape0 hidden_size audio + 1)) as [Hlt|Hge];
    destruct (Z.eqb_spec start_audio_token 1);
    destruct (Z.eqb_spec start_audio_token 1024); simpl;
    split; try done; try lia; intros [? [?|?]]; try done; lia.
Qed.

End RequestFacts.

(** ** Further cases of the assembly *)

Section AssemblyCases.
Import Torch GPT2Model Inputs Spec.

Context {row : Type}.
Variable embed_dim : nat.
Variable wte : table row.
Variable emb : table row.
Variable radd : row → row → row.

Notation select_tokens := (select_tokens embed_dim).
Notation embed_tokens := (embed_tokens wte emb radd).
Notation assemble := (assemble embed_dim wte emb radd).
Notation start_row := (start_row wte emb radd).
Notation audio_rows := (audio_rows wte emb radd).
Notation in_tables := (in_tables wte emb).
Notation Request := (@Request row).

(** X8.  An incremental step (neither first iteration nor logits-only)
    over n >= 1 tokens inside the token table, with as many positions
    inside the position table, returns one row per token, the token's
    embedding plus the embedding of its position, and reads neither the
    conditioning (which may be absent) nor the attention metadata.  A
    token or a position outside its table makes the step fail with an
    index error. *)
Theorem incremental_rows (input_ids position_ids : list Z)
    (attn_metadata : AttentionMetadata)
    (input_embeds : option (Conditioning row)) :
  input_ids ≠ [] → length position_ids = length input_ids →
  (Forall (in_table wte) input_ids → Forall (in_table emb) position_ids →
   assemble input_ids position_ids attn_metadata input_embeds false false
   = ok (zip_with (fun t p => radd (wte t) (emb p)) input_ids position_ids))
  ∧ (¬ (Forall (in_table wte) input_ids ∧ Forall (in_table emb) position_ids) →
     assemble input_ids position_ids attn_metadata input_embeds false false
     = raise IndexError).
Proof.
  intros Hne Hlen. unfold GPT2Model.assemble, GPT2Model.select_tokens.
  cbn [andb negb]. rewrite bind_ok, andb_false_r.
  unfold GPT2Model.embed_tokens. cbn [negb sel_input_ids sel_position_ids].
  assert (Hpositions : get_fixed_embedding emb position_ids
            = bind (lookup_rows emb position_ids)
                (fun rows => ok (Tensor (match position_ids with
                                         | [_] => [1; 1]
                                         | _ => [length position_ids]
                                         end) rows))).
  { unfold get_fixed_embedding.
    destruct position_ids as [|p [|p' ps]]; [by destruct input_ids|..].
    - unfold embedding. reflexivity.
    - reflexivity. }
  rewrite Hpositions. split.
  - intros Hids Hpos. rewrite embedding_inside by done.
    rewrite lookup_rows_inside by done. rewrite !bind_ok. cbn [lead cells].
    destruct input_ids as [|t [|t' ids]]; [done| |].
    + destruct position_ids as [|p [|p' ps]]; [done| |done]. reflexivity.
    + destruct position_ids as [|p [|p' ps]]; [done..|].
      unfold add, squeeze0. cbn [lead cells].
      assert (Hlen' : length ps = length ids) by (simpl in Hlen; lia).
      unfold broadcast_cells. simpl. rewrite !length_map, Hlen', Nat.eqb_refl.
      simpl. by rewrite zip_with_map2.
  - intros Hout. unfold embedding. cbn [cells].
    destruct (decide (Forall (in_table wte) input_ids)) as [Hids|Hids].
    + rewrite (lookup_rows_inside wte) by done. rewrite !bind_ok.
      rewrite (lookup_rows_outside emb); [done|]. intros Hpos. by apply Hout.
    + by rewrite (lookup_rows_outside wte).
Qed.

(** X9.  The priming pass reads the last token of the packed tensor and
    nothing else of it: two calls whose token tensors end in the same id
    (or are both empty, which is an index error) give the same result,
    whatever the earlier tokens, the lengths and the positions are. *)
Theorem priming_reads_last_token_only (input_ids input_ids' : list Z)
    (position_ids position_ids' : list Z) (attn_metadata : AttentionMetadata)
    (input_embeds : option (Conditioning row)) :
  last input_ids = last input_ids' →
  assemble input_ids position_ids attn_metadata input_embeds true false
  = assemble input_ids' position_ids' attn_metadata input_embeds true false
  ∧ (input_ids = [] →
       assemble input_ids position_ids attn_metadata input_embeds true false
       = raise IndexError).
Proof.
  intros Hlast. unfold GPT2Model.assemble, GPT2Model.select_tokens, getitem_last.
  cbn [andb negb]. rewrite <- Hlast. split.
  - destruct (last input_ids) as [last_id|]; reflexivity.
  - by intros ->.
Qed.

(** The priming pass with a single conditioning tensor, in closed form. *)
Lemma priming_single_output (input_ids position_ids : list Z)
    (attn_metadata : AttentionMetadata) (t : tensor row) (last_id : Z) :
  last input_ids = Some last_id →
  in_table wte last_id → in_table emb 0 →
  assemble input_ids position_ids attn_metadata (Some (Single t)) true false
  = ok ((if (Z.of_nat (length (cells t)) =? num_prefill_tokens attn_metadata)%Z
         then py_drop_last (cells t) else cells t) ++ [start_row last_id]).
Proof.
  intros Hlast Hid Hpos.
  destruct (priming_hidden embed_dim wte emb radd input_ids position_ids
              attn_metadata (Some (Single t)) last_id Hlast Hid Hpos)
    as (sel & Hsel & Hemb).
  unfold GPT2Model.assemble. rewrite Hsel, bind_ok, Hemb, bind_ok. simpl.
  change (shape0 embed_dim (view2d t)) with (length (cells t)).
  by destruct (Z.of_nat (length (cells t)) =? num_prefill_tokens attn_metadata)%Z.
Qed.

Lemma add_error (a b : tensor row) e : add radd a b = inl e → e = RuntimeError.
Proof.
  unfold add, broadcast_cells, bind, raise, ok.
  repeat case_match; congruence.
Qed.

Lemma lookup_rows_error {A} (t : table A) (indices : list Z) e :
  lookup_rows t indices = inl e → e = IndexError.
Proof.
  destruct (decide (Forall (in_table t) indices)) as [Hin|Hout].
  - by rewrite lookup_rows_inside.
  - rewrite lookup_rows_outside by done. by intros [= <-].
Qed.

(** The embedding sum fails in a lookup outside a table or in the
    tensor library, and in the tensor library when every index is inside
    its table. *)
Lemma embed_tokens_error (is_first_iteration : bool) (sel : Selected) e :
  embed_tokens is_first_iteration sel = inl e →
  (e = RuntimeError ∨ e = IndexError)
  ∧ (Forall (in_table wte) (cells (sel_input_ids sel)) →
     Forall (in_table emb) (sel_position_ids sel) → in_table emb 0 →
     e = RuntimeError).
Proof.
  unfold GPT2Model.embed_tokens, wpe_forward, get_fixed_embedding, embedding.
  cbn [cells lead seq map].
  destruct (lookup_rows wte (cells (sel_input_ids sel))) as [e1|looked] eqn:Hw.
  { intros [= <-]. pose proof (lookup_rows_error _ _ _ Hw) as ->.
    split; [by right|].
    intros Hin. by rewrite lookup_rows_inside in Hw. }
  rewrite !bind_ok.
  assert (Hpos : ∀ (l : list Z) (k : list row → result (tensor row)),
            bind (lookup_rows emb l) k = inl e →
            (∀ rows, k rows = inl e → e = RuntimeError) →
            (e = RuntimeError ∨ e = IndexError)
            ∧ (Forall (in_table emb) l → e = RuntimeError)).
  { intros l k Hk Hcont.
    destruct (lookup_rows emb l) as [e2|rows] eqn:Hl.
    - injection Hk as <-. pose proof (lookup_rows_error _ _ _ Hl) as ->.
      split; [by right|]. intros Hin. by rewrite lookup_rows_inside in Hl.
    - rewrite bind_ok in Hk. split; [left|intros _]; by eapply Hcont. }
  destruct is_first_iteration; cbn [negb].
  - intros Hsum.
    match type of Hsum with
    | bind (bind (lookup_rows emb ?l) ?k1) ?k2 = _ =>
        destruct (Hpos l (fun rows => bind (k1 rows) k2)) as [Hany Hin]
    end.
    + revert Hsum. destruct (lookup_rows emb _); cbn [bind]; done.
    + intros rows. rewrite bind_ok. apply add_error.
    + split; [done|]. intros _ _ H0. apply Hin. by apply Forall_singleton.
  - destruct (1 <? length (sel_position_ids sel)) eqn:Hmany.
    + intros Hsum.
      match type of Hsum with
      | bind (bind (lookup_rows emb ?l) ?k1) ?k2 = _ =>
          destruct (Hpos l (fun rows => bind (k1 rows) k2)) as [Hany Hin]
      end.
      * revert Hsum. destruct (lookup_rows emb _); cbn [bind]; done.
      * intros rows. rewrite bind_ok. apply add_error.
      * split; [done|]. intros _ Hall _. by apply Hin.
    + destruct (sel_position_ids sel) as [|p [|p' ps]].
      * intros [= <-]. by split; [left|].
      * intros Hsum.
        match type of Hsum with
        | bind (bind (lookup_rows emb ?l) ?k1) ?k2 = _ =>
            destruct (Hpos l (fun rows => bind (k1 rows) k2)) as [Hany Hin]
        end.
        -- revert Hsum. destruct (lookup_rows emb _); cbn [bind]; done.
        -- intros rows. rewrite bind_ok. apply add_error.
        -- split; [done|]. intros _ Hall _. by apply Hin.
      * intros [= <-]. by split; [left|].
Qed.

Lemma split0_negative (t : tensor row) (sizes : list Z) i z :
  sizes !! i = Some z → (z < 0)%Z → split0 t sizes = raise RuntimeError.
Proof.
  intros Hi Hz. unfold split0. destruct (lead t) as [|d0 rest]; [done|].
  assert (forallb (Z.leb 0) sizes = false) as ->; [|done].
  revert i Hi. induction sizes as [|s sizes IH]; intros [|i] Hi; simpl in *;
    try done.
  - injection Hi as ->. destruct (Z.leb_spec 0 z); [lia|done].
  - rewrite (IH i Hi). apply andb_false_r.
Qed.

Lemma slices_inside {A} (P : A → Prop) (l : list A) (starts ends : list Z) :
  Forall P l → Forall P (concat (Alignment.slices l starts ends)).
Proof.
  intros Hl. apply Forall_concat. unfold Alignment.slices.
  revert ends. induction starts as [|a starts IH]; intros [|b ends]; simpl;
    try constructor; [|apply IH].
  unfold py_slice. by apply Forall_take, Forall_drop.
Qed.

(** X10.  In the logits-only pass over a list of conditioning tensors, a
    request whose sequence length is smaller than the row count of its
    conditioning tensor makes the call fail instead of returning rows: its
    range has a negative length, which [split] refuses.  The failure is
    one of the tensor library when the packed tokens and positions (and
    position 0) are inside the embedding tables; otherwise it can be the
    index error of a lookup outside a table, which comes first. *)
Theorem logits_only_short_sequence_raises (embeds : list (tensor row))
    (input_ids position_ids : list Z) (attn_metadata : AttentionMetadata)
    (is_first_iteration : bool) (i : nat) (c : tensor row) (s : Z) :
  length embeds ≤ length (seq_lens attn_metadata) →
  embeds !! i = Some c → seq_lens attn_metadata !! i = Some s →
  (s < Z.of_nat (shape0 embed_dim c))%Z →
  ∃ e,
    assemble input_ids position_ids attn_metadata (Some (PerRequest embeds))
      is_first_iteration true
    = raise e
    ∧ (e = RuntimeError ∨ e = IndexError)
    ∧ (Forall (in_table wte) input_ids → Forall (in_table emb) position_ids →
       in_table emb 0 → e = RuntimeError).
Proof.
  intros Hlen Hc Hs Hshort.
  set (cs := map (fun e => Z.of_nat (shape0 embed_dim e)) embeds).
  assert (Hcs : cs !! i = Some (Z.of_nat (shape0 embed_dim c))).
  { subst cs. by rewrite lookup_map, Hc. }
  destruct (offset_table_upto cs (seq_lens attn_metadata))
    as (starts & ends & Htable & Hls & Hle & Hst & Hen).
  { intros Hnil. by rewrite Hnil in Hcs. }
  { subst cs. by rewrite length_map. }
  pose proof (lookup_lt_Some _ _ _ Hcs) as Hi.
  assert (Hneg : Alignment.ids_for_unpacking starts ends !! i
                 = Some (s - Z.of_nat (shape0 embed_dim c))%Z).
  { unfold Alignment.ids_for_unpacking. rewrite lookup_zip_with.
    rewrite (Hst i _ Hi Hcs), (Hen i Hi), (sumZ_take_S _ _ _ Hs). simpl.
    f_equal. lia. }
  unfold GPT2Model.assemble, GPT2Model.select_tokens.
  rewrite andb_false_r. cbn [negb]. fold cs. rewrite Htable, !bind_ok.
  cbn [fst snd].
  match goal with
  | |- context [bind (GPT2Model.embed_tokens _ _ _ _ ?sel) _] =>
      destruct (GPT2Model.embed_tokens wte emb radd is_first_iteration sel)
        as [e|summed] eqn:Hemb
  end.
  - apply embed_tokens_error in Hemb as [Hany Hin]. exists e.
    split; [reflexivity|]. split; [done|].
    intros Hids Hpos H0. apply Hin; [|by apply slices_inside|done].
    by apply slices_inside.
  - exists RuntimeError. rewrite bind_ok. cbn [is_list andb sel_ids_for_unpacking].
    rewrite (split0_negative summed _ i _ Hneg); [|lia].
    split; [reflexivity|]. by split; [left|].
Qed.

Lemma audio_lengths_agree (reqs : list Request) :
  Forall well_packed reqs →
  length (concat (map audio_positions reqs))
  = length (concat (map audio_ids reqs)).
Proof.
  induction 1 as [|r reqs (_ & _ & Hap) _ IH]; simpl; [done|].
  rewrite !length_app. lia.
Qed.

Lemma split0_sizes_ok (rest : list nat) (cs : list row) (sizes : list Z) :
  Forall (Z.le 0) sizes → sumZ sizes = Z.of_nat (length cs) →
  split0 (Tensor (length cs :: rest) cs) sizes
  = ok (split_cells rest sizes cs).
Proof.
  intros Hpos Hsum. unfold split0. cbn [lead cells].
  assert (forallb (Z.leb 0) sizes = true) as ->.
  { clear Hsum. induction Hpos as [|z zs Hz _ IH]; simpl; [done|].
    rewrite IH, andb_true_r. by apply Z.leb_le. }
  rewrite Hsum, Z.eqb_refl. reflexivity.
Qed.

Lemma lookup_row_error {A} (t : table A) (i : Z) e :
  lookup_row t i = inl e → e = IndexError ∧ ¬ in_table t i.
Proof.
  intros Hrow. destruct (decide (in_table t i)) as [Hin|Hout].
  - by rewrite lookup_row_inside in Hrow.
  - rewrite lookup_row_outside in Hrow by done. by injection Hrow as <-.
Qed.

(** The hidden states of one selected token at one position. *)
Lemma single_token_hidden (t p : Z) (unpack : list Z) :
  embed_tokens false
    {| sel_input_ids := Tensor [1; 1] [t];
       sel_position_ids := [p];
       sel_ids_for_unpacking := unpack |}
  = (a <~ lookup_row wte t ;;
     b <~ lookup_row emb p ;;
     ok (Tensor [1; 1] [radd a b]))%py.
Proof.
  unfold GPT2Model.embed_tokens, get_fixed_embedding, embedding.
  cbn [sel_input_ids sel_position_ids cells lead negb length Nat.ltb Nat.leb
       lookup_rows].
  destruct (lookup_row wte t) as [e|a]; [done|].
  destruct (lookup_row emb p) as [e|b]; [done|]. reflexivity.
Qed.

(** X11.  A logits-only pass that is not over an all-sentinel tensor
    fails whenever exactly one audio token is packed in total, with a list
    of conditioning tensors as with a single one.  With the token and its
    position inside the embedding tables the failure is one of the tensor
    library: the lone position is embedded with shape (1, 1, D), and
    concatenating the two-dimensional conditioning with it is refused.
    Otherwise it is the index error of the lookup outside its table. *)
Theorem logits_only_single_token_raises (reqs : list Request) (r : Request)
    (npt : Z) :
  (reqs ≠ [] → Forall well_packed reqs →
   length (concat (map audio_ids reqs)) = 1 →
   ∃ e,
     assemble (packed_ids reqs) (packed_positions reqs) (metadata_of reqs [] npt)
       (Some (PerRequest (bundle reqs))) false true
     = raise e
     ∧ (e = RuntimeError ∨ e = IndexError)
     ∧ (Forall (in_tables false) reqs → e = RuntimeError))
  ∧ (well_packed r → length (audio_ids r) = 1 →
     ∃ e,
       assemble (prefix_ids r ++ audio_ids r)
         (prefix_positions r ++ audio_positions r) (metadata_of [r] [] npt)
         (Some (Single (Tensor [1; length (cond r)] (cond r)))) false true
       = raise e
       ∧ (e = RuntimeError ∨ e = IndexError)
       ∧ (in_tables false r → e = RuntimeError)).
Proof.
  assert (Hcases : ∀ (t p : Z) (k : tensor row → result (list row)),
            k (Tensor [1; 1] [radd (wte t) (emb p)]) = raise RuntimeError →
            ∃ e,
              bind (bind (lookup_row wte t)
                      (fun a => bind (lookup_row emb p)
                                  (fun b => ok (Tensor [1; 1] [radd a b])))) k
              = raise e
              ∧ (e = RuntimeError ∨ e = IndexError)
              ∧ (in_table wte t → in_table emb p → e = RuntimeError)).
  { intros t p k Hk.
    destruct (lookup_row wte t) as [e|a] eqn:Ht.
    { apply lookup_row_error in Ht as [-> Hout]. exists IndexError.
      split; [reflexivity|]. by split; [right|]. }
    destruct (lookup_row emb p) as [e|b] eqn:Hp.
    { apply lookup_row_error in Hp as [-> Hout]. exists IndexError.
      split; [reflexivity|]. by split; [right|]. }
    exists RuntimeError.
    assert (a = wte t ∧ b = emb p) as [-> ->].
    { unfold lookup_row, ok, raise in Ht, Hp.
      split; repeat case_match; congruence. }
    rewrite !bind_ok. split; [exact Hk|]. by split; [left|]. }
  split.
  - intros Hne Hwf Hone.
    destruct (select_packed embed_dim reqs [] [] [] npt false Hne Hwf)
      as (starts & ends & _ & _ & _ & Hsel).
    rewrite !app_nil_r in Hsel.
    pose proof (audio_lengths_agree reqs Hwf) as Hpos. rewrite Hone in Hpos.
    assert (Hsum : sumZ (map (fun r => Z.of_nat (length (audio_ids r))) reqs) = 1%Z).
    { rewrite <- (map_map audio_ids (fun xs => Z.of_nat (length xs))).
      rewrite sumZ_lengths, Hone. done. }
    unfold GPT2Model.assemble. rewrite Hsel, bind_ok.
    destruct (concat (map audio_ids reqs)) as [|t [|? ?]] eqn:Hids;
      [done| |done].
    destruct (concat (map audio_positions reqs)) as [|p [|? ?]] eqn:Hps;
      [done| |done].
    cbn [length]. rewrite single_token_hidden.
    match goal with
    | |- ∃ e, bind _ ?k = _ ∧ _ => destruct (Hcases t p k) as (e & He & Hany & Hin)
    end.
    + cbn [is_list andb sel_ids_for_unpacking].
      rewrite (split0_sizes_ok [1] [radd (wte t) (emb p)]); [|clear|done].
      2: { induction reqs; simpl; constructor; [lia|done]. }
      rewrite !bind_ok. cbn [orb flatten_conditioning]. rewrite bind_ok.
      cbn [prepend_conditioning].
      destruct reqs as [|r0 reqs]; [done|]. reflexivity.
    + exists e. split; [exact He|]. split; [done|]. intros Htab.
      destruct (packed_in_tables wte emb reqs false Hne Htab) as [Hin1 Hin2].
      rewrite Hids in Hin1. rewrite Hps in Hin2.
      apply Hin; by eapply Forall_singleton.
  - intros Hwf Hone. destruct Hwf as (Hp & Hpp & Hap).
    unfold GPT2Model.assemble.
    rewrite (select_single embed_dim _ _ _ _ false (length (cond r)));
      [|reflexivity].
    rewrite bind_ok, <- Hp, drop_app_length.
    assert (drop (length (prefix_ids r))
              (prefix_positions r ++ audio_positions r) = audio_positions r)
      as ->.
    { rewrite Hp, <- Hpp. apply drop_app_length. }
    rewrite Hone in Hap. unfold Spec.in_tables.
    destruct (audio_ids r) as [|t [|? ?]]; [done| |done].
    destruct (audio_positions r) as [|p [|? ?]]; [done| |done].
    cbn [length]. rewrite single_token_hidden.
    match goal with
    | |- ∃ e, bind _ ?k = _ ∧ _ => destruct (Hcases t p k) as (e & He & Hany & Hin)
    end.
    + cbn [is_list andb orb bind ok flatten_conditioning].
      cbn [num_prefill_tokens metadata_of].
      match goal with
      | |- context [(?a =? npt)%Z] => destruct (a =? npt)%Z
      end; reflexivity.
    + exists e. split; [exact He|]. split; [done|]. intros [Hin1 Hin2].
      apply Hin; by eapply Forall_singleton.
Qed.

Lemma sumZ_nonneg (l : list Z) : Forall (Z.le 0) l → (0 ≤ sumZ l)%Z.
Proof. induction 1 as [|z zs Hz _ IH]; simpl; lia. Qed.

Lemma sumZ_zip_sub (cs ss : list Z) :
  length ss = length cs →
  sumZ (zip_with Z.sub ss cs) = (sumZ ss - sumZ cs)%Z.
Proof.
  revert cs. induction ss as [|s ss IH]; intros [|c cs] Hlen; simpl in *;
    try done.
  rewrite IH by lia. lia.
Qed.

(** X12.  When every request's sequence length is at least its
    conditioning length (and none is negative), the ranges the offset
    table gives are well formed, in order and disjoint: each range starts
    at or after 0 and ends at or after its start, a range starts at or
    after the end of the one before, the last range ends at the sum of the
    sequence lengths, and together the ranges hold the sum of the sequence
    lengths minus the sum of the conditioning lengths. *)
Theorem offset_ranges_ordered (cs ss : list Z) :
  cs ≠ [] → Forall2 (fun c s => (0 ≤ c ≤ s)%Z) cs ss →
  ∃ starts ends,
    Alignment.offset_table cs ss = ok (starts, ends)
    ∧ (∀ i a b, starts !! i = Some a → ends !! i = Some b → (0 ≤ a ≤ b)%Z)
    ∧ (∀ i b a', ends !! i = Some b → starts !! S i = Some a' → (b ≤ a')%Z)
    ∧ last ends = Some (sumZ ss)
    ∧ sumZ (Alignment.ids_for_unpacking starts ends) = (sumZ ss - sumZ cs)%Z.
Proof.
  intros Hne Hall. pose proof (Forall2_length _ _ _ Hall) as Hlen.
  destruct (offset_table_upto cs ss Hne) as (starts & ends & Htable & Htab);
    [lia|].
  destruct Htab as (Hls & Hle & Hst & Hen).
  assert (Hss : Forall (Z.le 0) ss).
  { clear -Hall. induction Hall as [|c s cs ss Hcs _ IH]; constructor;
      [lia|done]. }
  assert (Hpre : ∀ i, (0 ≤ sumZ (take i ss))%Z).
  { intros i. by apply sumZ_nonneg, Forall_take. }
  assert (Hentry : ∀ i c s, cs !! i = Some c → ss !! i = Some s →
            starts !! i = Some (sumZ (take i ss) + c)%Z
            ∧ ends !! i = Some (sumZ (take i ss) + s)%Z).
  { intros i c s Hc Hs. pose proof (lookup_lt_Some _ _ _ Hc) as Hi. split.
    - by apply Hst.
    - rewrite Hen by done. by rewrite (sumZ_take_S _ _ _ Hs). }
  exists starts, ends. split; [exact Htable|]. split_and!.
  - intros i a b Ha Hb. pose proof (lookup_lt_Some _ _ _ Ha) as Hi.
    destruct (lookup_lt_is_Some_2 cs i) as [c Hc]; [lia|].
    destruct (lookup_lt_is_Some_2 ss i) as [s Hs]; [lia|].
    pose proof (Forall2_lookup_lr _ _ _ _ _ _ Hall Hc Hs) as Hcs.
    simpl in Hcs.
    destruct (Hentry i c s Hc Hs) as [Ha' Hb'].
    rewrite Ha' in Ha. rewrite Hb' in Hb. injection Ha as <-. injection Hb as <-.
    specialize (Hpre i). lia.
  - intros i b a' Hb Ha'. pose proof (lookup_lt_Some _ _ _ Ha') as Hi.
    destruct (lookup_lt_is_Some_2 cs (S i)) as [c Hc]; [lia|].
    destruct (lookup_lt_is_Some_2 ss (S i)) as [s Hs]; [lia|].
    pose proof (Forall2_lookup_lr _ _ _ _ _ _ Hall Hc Hs) as Hcs.
    simpl in Hcs.
    rewrite (Hst (S i) c) in Ha' by (done || lia).
    rewrite Hen in Hb by lia. injection Ha' as <-. injection Hb as <-. lia.
  - rewrite last_lookup, Hle.
    assert (0 < length cs) by (destruct cs; [done|simpl; lia]).
    rewrite Hen by lia.
    replace (S (Nat.pred (length cs))) with (length cs) by lia.
    by rewrite take_ge by lia.
  - assert (Alignment.ids_for_unpacking starts ends = zip_with Z.sub ss cs)
      as ->; [|by apply sumZ_zip_sub].
    apply list_eq. intros i. unfold Alignment.ids_for_unpacking.
    rewrite !lookup_zip_with.
    destruct (cs !! i) as [c|] eqn:Hc.
    + destruct (lookup_lt_is_Some_2 ss i) as [s Hs].
      { rewrite <- Hlen. by eapply lookup_lt_Some. }
      destruct (Hentry i c s Hc Hs) as [-> ->]. rewrite Hs. simpl. f_equal. lia.
    + apply lookup_ge_None in Hc.
      rewrite (proj2 (lookup_ge_None starts i)) by lia. simpl.
      rewrite (proj2 (lookup_ge_None ss i)) by lia. done.
Qed.


End AssemblyCases.

(** ** From the request to the model *)

Section RequestToModel.
Import Torch GPT2Model Inputs Spec.

Context {row : Type}.
(** [config.hidden_size], which is also [GPT2Model.embed_dim]. *)
Variable hidden_size : nat.
Variable wte : table row.
Variable emb : table row.
Variable radd : row → row → row.
Variable zero_row : row.
Variable start_audio_token : Z.

Notation input_processor_for_xtts2_gpt :=
  (input_processor_for_xtts2_gpt hidden_size start_audio_token).
Notation dummy_conditioning_for_xtts := (dummy_conditioning_for_xtts zero_row).
Notation select_tokens := (select_tokens hidden_size).
Notation assemble := (assemble hidden_size wte emb radd).
Notation start_row := (start_row wte emb radd).
Notation AudioData := (@AudioData row).

Lemma py_slice_suffix {A} (before middle : list A) :
  py_slice (before ++ middle) (Z.of_nat (length before))
    (Z.of_nat (length (before ++ middle)))
  = middle.
Proof.
  pose proof (py_slice_middle before middle []) as Hmid.
  rewrite app_nil_r in Hmid. by rewrite length_app.
Qed.

(** X13.  From the request to the first forward pass.  For a request
    whose [embeds] is a conditioning matrix of L >= 1 rows, with the flag
    off and a start-audio token that is a sentinel id, the processed
    prompt is classified as first iteration, and the priming pass over it
    (with the conditioning as one tensor of any shape over these rows, or
    as a list of the one matrix) returns the L conditioning rows followed
    by the row of the start-audio token at position 0: one row per prompt
    token.  The single-tensor case needs [num_prefill_tokens] to differ
    from L, as it does when it counts the L + 1 prompt tokens.  The
    start-audio token and position 0 are inside the embedding tables. *)
Theorem processed_prompt_primes (c : list row) (t : tensor row)
    (mm : gmap string AudioData) (d : AudioData) (prompt : option (list Z))
    (positions : list Z) (attn_metadata : AttentionMetadata) :
  mm !! "audio" = Some d → embeds d = Some (VTensor (matrix c)) →
  default false (is_logits_only_mode d) = false →
  c ≠ [] → (start_audio_token = 1 ∨ start_audio_token = 1024)%Z →
  cells t = c → num_prefill_tokens attn_metadata ≠ Z.of_nat (length c) →
  in_table wte start_audio_token → in_table emb 0 →
  ∃ out,
    input_processor_for_xtts2_gpt
      {| multi_modal_data := Some mm; prompt_token_ids := prompt |} = inr out
    ∧ Classifier.is_first_iteration (out_prompt_token_ids out) = true
    ∧ assemble (out_prompt_token_ids out) positions attn_metadata
        (Some (Single t))
        (Classifier.is_first_iteration (out_prompt_token_ids out)) false
      = ok (c ++ [start_row start_audio_token])
    ∧ assemble (out_prompt_token_ids out) positions attn_metadata
        (Some (PerRequest [matrix c]))
        (Classifier.is_first_iteration (out_prompt_token_ids out)) false
      = ok (c ++ [start_row start_audio_token])
    ∧ length (c ++ [start_row start_audio_token])
      = length (out_prompt_token_ids out).
Proof.
  intros Hd He Hflag Hne Hstart Hcells Hnpt Hid Hpos.
  unfold Inputs.input_processor_for_xtts2_gpt. simpl.
  rewrite Hd, He, Hflag, py_repeat_singleton, Nat2Z.id. simpl.
  eexists. split; [reflexivity|]. simpl.
  change (shape0 hidden_size (matrix c)) with (length c).
  set (ids := replicate (length c) 1%Z ++ [start_audio_token]).
  assert (Hlast : last ids = Some start_audio_token) by apply last_snoc.
  assert (Hfirst : Classifier.is_first_iteration ids = true).
  { unfold Classifier.is_first_iteration. subst ids.
    rewrite length_app, length_replicate, forallb_app. simpl.
    rewrite fillers_are_sentinels by by apply Forall_replicate.
    unfold Classifier.isin_sentinels, Classifier.PAD_FILLER_ID,
      Classifier.START_AUDIO_TOKEN_ID.
    assert ((1 <? length c + 1) = true) as ->.
    { apply Nat.ltb_lt. destruct c; [done|simpl; lia]. }
    destruct Hstart as [->| ->]; reflexivity. }
  rewrite Hfirst. split_and!; [done| | |].
  - rewrite (priming_single_output hidden_size wte emb radd _ _ _ _
               start_audio_token Hlast Hid Hpos), Hcells.
    destruct (Z.eqb_spec (Z.of_nat (length c))
                (num_prefill_tokens attn_metadata)); [congruence|done].
  - rewrite (priming_list_output hidden_size wte emb radd _ _ _ _
               start_audio_token); [|done..].
    simpl. by rewrite app_nil_r.
  - subst ids. by rewrite !length_app, length_replicate.
Qed.

(** X14.  From the request to the logits-only pass.  For a request whose
    [embeds] is a conditioning matrix of L rows, with the flag on and a
    prompt of audio tokens, the processed prompt is L filler ids followed
    by the audio tokens, and the logits-only pass strips exactly these
    fillers again: with the conditioning as a list of the one matrix and
    [seq_lens] the prompt's length, or as one tensor of shape (1, L, D),
    the selected tokens are the caller's audio tokens and the selected
    positions are the positions after the first L. *)
Theorem processed_prompt_round_trip (c : list row) (ids positions : list Z)
    (mm : gmap string AudioData) (d : AudioData) (npt : Z)
    (is_first_iteration : bool) :
  mm !! "audio" = Some d → embeds d = Some (VTensor (matrix c)) →
  is_logits_only_mode d = Some true →
  length positions = length c + length ids →
  ∃ out,
    input_processor_for_xtts2_gpt
      {| multi_modal_data := Some mm; prompt_token_ids := Some ids |} = inr out
    ∧ out_prompt_token_ids out = replicate (length c) 1%Z ++ ids
    ∧ select_tokens (out_prompt_token_ids out) positions
        {| seq_lens := [Z.of_nat (length (out_prompt_token_ids out))];
           num_prefill_tokens := npt |}
        (Some (PerRequest [matrix c])) is_first_iteration true
      = ok {| sel_input_ids := Tensor [1; length ids] ids;
              sel_position_ids := drop (length c) positions;
              sel_ids_for_unpacking := [Z.of_nat (length ids)] |}
    ∧ select_tokens (out_prompt_token_ids out) positions
        {| seq_lens := [Z.of_nat (length (out_prompt_token_ids out))];
           num_prefill_tokens := npt |}
        (Some (Single (Tensor [1; length c] c))) is_first_iteration true
      = ok {| sel_input_ids := Tensor [1; length ids] ids;
              sel_position_ids := drop (length c) positions;
              sel_ids_for_unpacking := [] |}.
Proof.
  intros Hd He Hflag Hlen.
  unfold Inputs.input_processor_for_xtts2_gpt. simpl.
  rewrite Hd, He, Hflag, py_repeat_singleton, Nat2Z.id. simpl.
  eexists. split; [reflexivity|]. simpl.
  change (shape0 hidden_size (matrix c)) with (length c). split; [done|].
  set (fillers := replicate (length c) 1%Z).
  assert (Hfill : length fillers = length c) by apply length_replicate.
  split.
  - unfold GPT2Model.select_tokens. rewrite andb_false_r. cbn [negb].
    simpl map. cbn [seq_lens].
    change (Alignment.offset_table _ _)
      with (ok ([Z.of_nat (length c)],
                [Z.of_nat (length (fillers ++ ids))])).
    rewrite bind_ok. cbn [fst snd Alignment.slices Alignment.ids_for_unpacking
                          zip_with concat].
    rewrite !app_nil_r, <- Hfill, py_slice_suffix.
    rewrite <- (take_drop (length fillers) positions) at 1.
    replace (Z.of_nat (length fillers))
      with (Z.of_nat (length (take (length fillers) positions))) at 1
      by (rewrite length_take; lia).
    replace (Z.of_nat (length (fillers ++ ids)))
      with (Z.of_nat (length (take (length fillers) positions
                              ++ drop (length fillers) positions))) at 1
      by (rewrite take_drop, length_app; lia).
    rewrite py_slice_suffix. do 2 f_equal.
    rewrite length_app. f_equal. lia.
  - rewrite (select_single hidden_size _ _ _ _ _ (length c)); [|reflexivity].
    rewrite <- Hfill, drop_app_length. reflexivity.
Qed.

(** X15.  The conditioning the profiler builds is a list: [audio_count]
    zero matrices of [seq_len] rows each under ["audio"], with the flag
    off.  The input mapper accepts it and hands the list on unchanged,
    while the input processor, which reads [embeds.shape], refuses it with
    an attribute error whatever the prompt. *)
Theorem dummy_conditioning_mapped_not_processed (seq_len audio_count : Z)
    (prompt : option (list Z)) :
  (0 ≤ seq_len ∨ audio_count ≤ 0)%Z →
  ∃ (mm : gmap string AudioData) (d : AudioData),
    dummy_conditioning_for_xtts seq_len audio_count = inr mm
    ∧ mm !! "audio" = Some d
    ∧ embeds d
      = Some (VList (replicate (Z.to_nat audio_count)
                       (ITensor (matrix (replicate (Z.to_nat seq_len) zero_row)))))
    ∧ input_mapper_for_xtts (DataDict d)
      = inr {| cond_latents := embeds d; mm_is_logits_only_mode := false |}
    ∧ input_processor_for_xtts2_gpt
        {| multi_modal_data := Some mm; prompt_token_ids := prompt |}
      = inl (Raised AttributeError).
Proof.
  intros Hsize. unfold Inputs.dummy_conditioning_for_xtts.
  assert ((0 <? audio_count)%Z && (seq_len <? 0)%Z = false) as ->.
  { destruct (Z.ltb_spec 0 audio_count), (Z.ltb_spec seq_len 0); try done. lia. }
  eexists _, _. split; [reflexivity|]. split; [apply lookup_singleton_eq|].
  split; [reflexivity|]. split.
  - unfold input_mapper_for_xtts, check_items. cbn [embeds].
    assert (forallb is_tensor
              (replicate (Z.to_nat audio_count)
                 (ITensor (matrix (replicate (Z.to_nat seq_len) zero_row))))
            = true) as ->; [|reflexivity].
    induction (Z.to_nat audio_count) as [|k IH]; [done|exact IH].
  - unfold Inputs.input_processor_for_xtts2_gpt. cbn [multi_modal_data].
    by rewrite lookup_singleton_eq.
Qed.

End RequestToModel.

(** ** The order of the weights *)

Section WeightsOrder.
Import Weights Spec.

Context {W : Type}.
Variable transpose : W → W.
Variable weight_loader : string → W → W → W.

Notation load_one := (load_one transpose weight_loader).
Notation load_weights := (load_weights transpose weight_loader).

Lemma supplied_permutation (weights weights' : list (string * W)) :
  weights ≡ₚ weights' → supplied weights = supplied weights'.
Proof.
  intros Hperm. unfold supplied. apply set_eq. intros name.
  rewrite !elem_of_list_to_set. by rewrite Hperm.
Qed.

(** X16.  When every name is supplied once, the order in which the
    weights arrive does not matter: any reordering of the weight list
    leaves the same parameters and ends the same way. *)
Theorem load_weights_order_irrelevant (params : gmap string W)
    (weights weights' : list (string * W)) :
  NoDup weights.*1 → weights ≡ₚ weights' →
  load_weights params weights = load_weights params weights'.
Proof.
  intros Hnd Hperm.
  assert (Hnd' : NoDup weights'.*1) by by rewrite <- Hperm.
  pose proof (supplied_permutation _ _ Hperm) as Hsup.
  unfold Weights.load_weights. cbv zeta. f_equal.
  - apply map_eq. intros name.
    destruct (decide (name ∈ supplied weights)) as [Hin|Hnot].
    + unfold supplied in Hin. apply elem_of_list_to_set in Hin.
      apply list_elem_of_fmap in Hin as ([name' w] & -> & Hin). simpl.
      destruct (params !! name') as [init|] eqn:Hinit.
      * rewrite (load_all_bound transpose weight_loader weights name' w init
                   (params, ∅)) by done.
        rewrite (load_all_bound transpose weight_loader weights' name' w init
                   (params, ∅)); [done|done| |done].
        by rewrite <- Hperm.
      * transitivity (@None W); [|symmetry]; apply not_elem_of_dom;
          rewrite load_all_dom; by apply not_elem_of_dom.
    + rewrite !load_all_untouched; [done| |done]. by rewrite <- Hsup.
  - by rewrite !load_all_loaded, Hsup.
Qed.

End WeightsOrder.

(** ** The positions of [LearnedPositionEmbeddings.forward] *)

Section PositionFacts.
Import Torch GPT2Model Inputs.

Context {row : Type}.
Variable emb : table row.

(** X17.  The positions [LearnedPositionEmbeddings.forward] looks up for
    an input of [sl] columns are [sl] consecutive indices inside the table
    of [seq_len] entries, as long as [sl <= seq_len]: 0, ..., sl - 1 when
    the embedding is not relative, and a window that starts at the drawn
    number minus [sl] when it is, wherever in [sl, seq_len] the draw
    falls.  The non-relative positions are the ones [GPT2Model] embeds,
    with success when the table has [seq_len] rows. *)
Theorem position_window_inside_table (relative : bool) (sl : nat)
    (seq_len draw : Z) :
  (Z.of_nat sl ≤ seq_len)%Z →
  (relative = true → (Z.of_nat sl ≤ draw ≤ seq_len)%Z) →
  let ps := wpe_forward_positions relative sl draw in
  length ps = sl
  ∧ (∀ i p, ps !! i = Some p → (0 ≤ p < seq_len)%Z)
  ∧ (∀ i p q, ps !! i = Some p → ps !! S i = Some q → q = (p + 1)%Z)
  ∧ (∀ p, ps !! 0 = Some p →
       p = if relative then (draw - Z.of_nat sl)%Z else 0%Z)
  ∧ (num_embeddings emb = seq_len →
     wpe_forward emb sl
     = ok (Tensor [sl] (map emb (wpe_forward_positions false sl draw)))).
Proof.
  intros Hsl Hdraw ps.
  assert (Hps : ∀ i p, ps !! i = Some p →
            i < sl ∧ p = ((if relative then draw - Z.of_nat sl else 0)
                          + Z.of_nat i)%Z).
  { intros i p Hp. subst ps. unfold wpe_forward_positions in Hp.
    destruct relative; rewrite lookup_map in Hp;
      destruct (seq 0 sl !! i) as [j|] eqn:Hj; try done;
      apply lookup_seq in Hj as [-> Hi]; simpl in Hp; injection Hp as <-;
      split; [done|lia|done|lia]. }
  split_and!.
  - subst ps. unfold wpe_forward_positions.
    destruct relative; by rewrite length_map, length_seq.
  - intros i p Hp. destruct (Hps i p Hp) as [Hi ->].
    destruct relative; [specialize (Hdraw eq_refl)|]; lia.
  - intros i p q Hp Hq. destruct (Hps i p Hp) as [_ ->].
    destruct (Hps (S i) q Hq) as [_ ->]. lia.
  - intros p Hp. destruct (Hps 0 p Hp) as [_ ->]. destruct relative; lia.
  - intros Hrows. unfold wpe_forward, wpe_forward_positions.
    rewrite embedding_inside; [done|]. cbn [cells].
    apply Forall_forall. intros p Hp. apply list_elem_of_fmap in Hp as (i & -> & Hi).
    apply elem_of_seq in Hi. unfold in_table. lia.
Qed.

End PositionFacts.

(** ** The further properties on the small model *)

Section MoreExamples.
Import Torch GPT2Model Inputs Layout Spec Example.

Lemma start_indices_mark_start_rows_witness :
  calculate_start_token_indices 2 [matrix [ex_c; ex_c]; matrix [[5; 5]%Z]]
  = [2; 4]%Z
  ∧ ∃ out,
      ex_assemble [1; 1; 1; 1024]%Z [0; 1; 2; 3]%Z
        {| seq_lens := [4]%Z; num_prefill_tokens := 4 |}
        (Some (PerRequest [matrix [ex_c; ex_c]; matrix [[5; 5]%Z]])) true false
      = ok out
      ∧ length out = 5
      ∧ out !! 2 = Some [1024; 0]%Z
      ∧ out !! 4 = Some [1024; 0]%Z.
Proof.
  pose proof (start_indices_mark_start_rows 2 ex_wte ex_emb ex_radd
                [[ex_c; ex_c]; [[5; 5]%Z]] [1; 1; 1; 1024]%Z [0; 1; 2; 3]%Z
                {| seq_lens := [4]%Z; num_prefill_tokens := 4 |} 1024%Z
                ltac:(done) eq_refl
                ltac:(unfold in_table; simpl; lia)
                ltac:(unfold in_table; simpl; lia)) as Hthm.
  cbv zeta in Hthm.
  destruct Hthm as (_ & _ & out & Hout & Hlen & Hstart & _).
  split; [reflexivity|]. exists out. split_and!.
  - exact Hout.
  - simpl in Hlen. lia.
  - apply (Hstart 2%Z). apply list_elem_of_lookup. by exists 0.
  - apply (Hstart 4%Z). apply list_elem_of_lookup. by exists 1.
Defined.

Lemma processed_inputs_pass_the_mapper_witness :
  ∃ (d : @AudioData ex_row) (audio : tensor ex_row) (rest : list Z),
    ex_mm_logits !! "audio" = Some d
    ∧ embeds d = Some (VTensor audio)
    ∧ input_mapper_for_xtts (DataDict d)
      = inr {| cond_latents := Some (VTensor audio);
               mm_is_logits_only_mode := default false (is_logits_only_mode d) |}
    ∧ [1; 1; 7; 8]%Z = replicate (shape0 2 audio) 1%Z ++ rest.
Proof.
  destruct (processed_inputs_pass_the_mapper 2 1024
              {| multi_modal_data := Some ex_mm_logits;
                 prompt_token_ids := Some [7; 8]%Z |}
              {| out_prompt_token_ids := [1; 1; 7; 8]%Z;
                 out_multi_modal_data := ex_mm_logits |})
    as (d & audio & rest & _ & Hd & He & Hmap & Hids & _).
  - unfold Inputs.input_processor_for_xtts2_gpt, ex_mm_logits. simpl.
    by rewrite lookup_singleton_eq.
  - exists d, audio, rest. by split_and!.
Defined.

Lemma processed_prompt_phase_witness :
  ∃ out,
    ex_processor {| multi_modal_data := Some ex_mm_priming;
                    prompt_token_ids := None |} = inr out
    ∧ out_prompt_token_ids out = [1; 1; 1024]%Z
    ∧ Classifier.classify (out_prompt_token_ids out) (Classifier.FlagBool false)
      = Classifier.PRIMING.
Proof.
  destruct (processed_prompt_phase 2 1024 ex_mm_priming ex_audio_priming
              (matrix [ex_c; ex_c]) None)
    as (out & Hout & Hids & _ & Hphase).
  - apply lookup_singleton_eq.
  - reflexivity.
  - reflexivity.
  - exists out. split_and!; [exact Hout|exact Hids|].
    apply Hphase. split; [change (1 ≤ 2); lia|by right].
Defined.

Lemma incremental_rows_witness :
  ex_assemble [7; 8]%Z [5; 6]%Z
    {| seq_lens := [7]%Z; num_prefill_tokens := 0 |} None false false
  = ok [[7; 5]; [8; 6]]%Z.
Proof.
  apply (incremental_rows 2 ex_wte ex_emb ex_radd [7; 8]%Z [5; 6]%Z
           {| seq_lens := [7]%Z; num_prefill_tokens := 0 |} None
           ltac:(done) eq_refl);
    repeat constructor; unfold in_table; simpl; lia.
Defined.

Lemma priming_reads_last_token_only_witness :
  ex_assemble [1; 1; 1024]%Z [0; 1; 2]%Z
    {| seq_lens := [3]%Z; num_prefill_tokens := 3 |}
    (Some (Single (matrix [ex_c; ex_c]))) true false
  = ex_assemble [1024]%Z [9]%Z
      {| seq_lens := [3]%Z; num_prefill_tokens := 3 |}
      (Some (Single (matrix [ex_c; ex_c]))) true false.
Proof.
  exact (proj1 (priming_reads_last_token_only 2 ex_wte ex_emb ex_radd
                  [1; 1; 1024]%Z [1024]%Z [0; 1; 2]%Z [9]%Z
                  {| seq_lens := [3]%Z; num_prefill_tokens := 3 |}
                  (Some (Single (matrix [ex_c; ex_c]))) eq_refl)).
Defined.

Lemma logits_only_short_sequence_raises_witness :
  ex_assemble [1; 1]%Z [0; 1]%Z
    {| seq_lens := [2]%Z; num_prefill_tokens := 2 |}
    (Some (PerRequest [matrix [ex_c; ex_c; ex_c]])) false true
  = raise RuntimeError.
Proof.
  destruct (logits_only_short_sequence_raises 2 ex_wte ex_emb ex_radd
              [matrix [ex_c; ex_c; ex_c]] [1; 1]%Z [0; 1]%Z
              {| seq_lens := [2]%Z; num_prefill_tokens := 2 |} false
              0 (matrix [ex_c; ex_c; ex_c]) 2%Z)
    as (e & He & _ & Hinside).
  - simpl. lia.
  - reflexivity.
  - reflexivity.
  - change (2 < 3)%Z. lia.
  - rewrite <- Hinside; [exact He|..];
      repeat constructor; unfold in_table; simpl; lia.
Defined.

Lemma logits_only_single_token_raises_witness :
  ex_assemble [1; 1; 7]%Z [0; 1; 2]%Z
    {| seq_lens := [3]%Z; num_prefill_tokens := 3 |}
    (Some (PerRequest [matrix [ex_c; ex_c]])) false true
  = raise RuntimeError
  ∧ ex_assemble [1; 1; 7]%Z [0; 1; 2]%Z
      {| seq_lens := [3]%Z; num_prefill_tokens := 3 |}
      (Some (Single (Tensor [1; 2] [ex_c; ex_c]))) false true
    = raise RuntimeError.
Proof.
  destruct (logits_only_single_token_raises 2 ex_wte ex_emb ex_radd
              [ex_one_token] ex_one_token 3) as [Hlist Hsingle].
  assert (Hin : in_tables ex_wte ex_emb false ex_one_token)
    by (repeat constructor; unfold in_table; simpl; lia).
  split.
  - destruct Hlist as (e & He & _ & Hinside);
      [done|repeat constructor|reflexivity|].
    rewrite <- Hinside; [exact He|by repeat constructor].
  - destruct Hsingle as (e & He & _ & Hinside);
      [repeat constructor|reflexivity|].
    rewrite <- Hinside; [exact He|exact Hin].
Defined.

Lemma offset_ranges_ordered_witness :
  ∃ starts ends,
    Alignment.offset_table [3; 2]%Z [5; 4]%Z = ok (starts, ends)
    ∧ last ends = Some 9%Z
    ∧ sumZ (Alignment.ids_for_unpacking starts ends) = 4%Z.
Proof.
  destruct (offset_ranges_ordered [3; 2]%Z [5; 4]%Z)
    as (starts & ends & Htable & _ & _ & Hlast & Hsum).
  - done.
  - repeat constructor; lia.
  - exists starts, ends. by split_and!.
Defined.

Lemma processed_prompt_primes_witness :
  ∃ out,
    ex_processor {| multi_modal_data := Some ex_mm_priming;
                    prompt_token_ids := None |} = inr out
    ∧ ex_assemble (out_prompt_token_ids out) [0; 1; 2]%Z
        {| seq_lens := [3]%Z; num_prefill_tokens := 3 |}
        (Some (Single (matrix [ex_c; ex_c])))
        (Classifier.is_first_iteration (out_prompt_token_ids out)) false
      = ok [ex_c; ex_c; [1024; 0]%Z].
Proof.
  destruct (processed_prompt_primes 2 ex_wte ex_emb ex_radd 1024
              [ex_c; ex_c] (matrix [ex_c; ex_c]) ex_mm_priming
              ex_audio_priming None [0; 1; 2]%Z
              {| seq_lens := [3]%Z; num_prefill_tokens := 3 |})
    as (out & Hout & _ & Hsingle & _).
  - apply lookup_singleton_eq.
  - reflexivity.
  - reflexivity.
  - done.
  - by right.
  - reflexivity.
  - done.
  - unfold in_table. simpl. lia.
  - unfold in_table. simpl. lia.
  - exists out. split; [exact Hout|exact Hsingle].
Defined.

Lemma processed_prompt_round_trip_witness :
  ∃ out,
    ex_processor {| multi_modal_data := Some ex_mm_logits;
                    prompt_token_ids := Some [7; 8]%Z |} = inr out
    ∧ out_prompt_token_ids out = [1; 1; 7; 8]%Z
    ∧ select_tokens 2 (out_prompt_token_ids out) [0; 1; 2; 3]%Z
        {| seq_lens := [Z.of_nat (length (out_prompt_token_ids out))];
           num_prefill_tokens := 4 |}
        (Some (PerRequest [matrix [ex_c; ex_c]])) false true
      = ok {| sel_input_ids := Tensor [1; 2] [7; 8]%Z;
              sel_position_ids := [2; 3]%Z;
              sel_ids_for_unpacking := [2]%Z |}.
Proof.
  destruct (processed_prompt_round_trip 2 1024 [ex_c; ex_c] [7; 8]%Z
              [0; 1; 2; 3]%Z ex_mm_logits ex_audio_logits 4 false)
    as (out & Hout & Hids & Hlist & _).
  - apply lookup_singleton_eq.
  - reflexivity.
  - reflexivity.
  - reflexivity.
  - exists out. by split_and!.
Defined.

Lemma dummy_conditioning_mapped_not_processed_witness :
  ∃ (mm : gmap string (@AudioData ex_row)) (d : @AudioData ex_row),
    dummy_conditioning_for_xtts [0; 0]%Z 2 1 = inr mm
    ∧ mm !! "audio" = Some d
    ∧ embeds d = Some (VList [ITensor (matrix [[0; 0]; [0; 0]]%Z)])
    ∧ ex_processor {| multi_modal_data := Some mm; prompt_token_ids := None |}
      = inl (Raised AttributeError).
Proof.
  destruct (dummy_conditioning_mapped_not_processed 2 [0; 0]%Z 1024 2 1 None)
    as (mm & d & Hmm & Hd & He & _ & Hproc).
  - lia.
  - exists mm, d. by split_and!.
Defined.

Lemma load_weights_order_irrelevant_witness :
  Weights.load_weights Z.opp (fun _ _ w => w) example_params example_weights
  = Weights.load_weights Z.opp (fun _ _ w => w) example_params
      [ ("gpt.wte.weight", 7%Z); ("gpt.h.0.attn.c_attn.weight", 5%Z) ].
Proof.
  apply (load_weights_order_irrelevant Z.opp (fun _ _ w => w)).
  - vm_compute. repeat constructor; set_solver.
  - apply perm_swap.
Defined.

Lemma position_window_inside_table_witness :
  length (wpe_forward_positions true 2 5) = 2
  ∧ (∀ i p, wpe_forward_positions true 2 5 !! i = Some p → (0 ≤ p < 10)%Z)
  ∧ wpe_forward_positions true 2 5 = [3; 4]%Z.
Proof.
  pose proof (position_window_inside_table ex_emb true 2 10 5
                ltac:(simpl; lia) ltac:(intros _; simpl; lia)) as Hthm.
  cbv zeta in Hthm. destruct Hthm as (Hlen & Hin & _).
  split_and!; [exact Hlen|exact Hin|reflexivity].
Defined.

End MoreExamples.
